(** * Resume_Screener: the scoring-and-ranking pipeline

    A shallow embedding of [src/agents/matcher.py], [src/agents/ranker.py]
    and [src/runner.py], with the data classes of [src/models].

    Conventions of the embedding.
    - A Python [float] score is an exact rational ([Q]); equality of scores
      is [Qeq] and binary rounding is outside the model.
    - A Python [int] is a [Z] where it can be negative or absent, a [nat]
      where it is a length or an index.
    - A Python [str] is a [string]. The locale-dependent text methods
      [str.lower], [str.strip] and [str.split] are the operations of the
      class [PyStr]; the general theorems hold for every instance, the
      instance [ascii_str] implements them on ASCII text and is used
      to evaluate concrete inputs.
    - A [dict] is a [gmap], a [set] is a [gset].
    - The external collaborators (job analyzer, resume parser, explanation
      model, the wall clock) are parameters of the development. *)

From Stdlib Require Import Ascii String QArith Qminmax Qabs Qround Lqa Sorted.
From stdpp Require Import base list strings gmap pretty.

(** ** Python helpers *)

(** [min(a, b)] on floats: [b] when [b < a], else [a]. *)
Definition py_min (a b : Q) : Q :=
  if Qlt_le_dec b a then b else a.

(** [x or 0] on an optional integer: [None] and [0] are falsy. *)
Definition or_zero (x : option Z) : Z :=
  match x with
  | Some z => if (z =? 0)%Z then 0%Z else z
  | None => 0%Z
  end.

(** [x or ''] on an optional string. *)
Definition or_empty (x : option string) : string :=
  match x with
  | Some s => s
  | None => ""
  end.

(** Truth value of an optional string: [None] and [""] are falsy. *)
Definition truthy (x : option string) : bool :=
  match x with
  | Some (String _ _) => true
  | _ => false
  end.

(** [sum(...)] over integers. *)
Definition sum_Z (l : list Z) : Z := foldr Z.add 0%Z l.

(** [a / b] on two integers (true division). *)
Definition int_div (a b : Z) : Q := (inject_Z a / inject_Z b)%Q.

(** [needle in haystack] on strings. *)
Fixpoint contains (needle haystack : string) : bool :=
  String.prefix needle haystack ||
  match haystack with
  | EmptyString => false
  | String _ rest => contains needle rest
  end.

(** [sep.join(parts)]. *)
Definition join (sep : string) (parts : list string) : string :=
  String.concat sep parts.

(** Rounding to the nearest integer, ties to even. *)
Definition round_half_even (q : Q) : Z :=
  let f := Qfloor q in
  match (q - inject_Z f ?= 1 # 2)%Q with
  | Lt => f
  | Gt => (f + 1)%Z
  | Eq => if Z.even f then f else (f + 1)%Z
  end.

(** [f"{q:.1f}"]: one digit after the point. *)
Definition format_1f (q : Q) : string :=
  let n := round_half_even (Qabs q * 10)%Q in
  (if Qlt_le_dec q 0 then "-" else "") +:+
  pretty (n / 10)%Z +:+ "." +:+ pretty (n mod 10)%Z.

(** ** Text methods of [str] *)

Class PyStr := {
  lower : string → string;
  strip : string → string;
  split : string → list string;
}.

Module Ascii7.
Definition is_upper (c : ascii) : bool :=
  let n := nat_of_ascii c in (65 <=? n)%nat && (n <=? 90)%nat.

Definition lower_char (c : ascii) : ascii :=
  if is_upper c then ascii_of_nat (nat_of_ascii c + 32) else c.

(** The ASCII characters for which [str.isspace] holds. *)
Definition is_space (c : ascii) : bool :=
  let n := nat_of_ascii c in
  ((9 <=? n)%nat && (n <=? 13)%nat) ||
  ((28 <=? n)%nat && (n <=? 32)%nat).

Fixpoint lower (s : string) : string :=
  match s with
  | EmptyString => EmptyString
  | String c rest => String (lower_char c) (lower rest)
  end.

Fixpoint lstrip (s : string) : string :=
  match s with
  | EmptyString => EmptyString
  | String c rest => if is_space c then lstrip rest else s
  end.

Fixpoint rstrip (s : string) : string :=
  match s with
  | EmptyString => EmptyString
  | String c rest =>
      match rstrip rest with
      | EmptyString => if is_space c then EmptyString else String c EmptyString
      | kept => String c kept
      end
  end.

Definition strip (s : string) : string := rstrip (lstrip s).

(** [split_go cur s]: [cur] is the word being read, if any. *)
Fixpoint split_go (cur : option string) (s : string) : list string :=
  match s with
  | EmptyString => option_list cur
  | String c rest =>
      if is_space c then option_list cur ++ split_go None rest
      else split_go (Some (or_empty cur +:+ String c EmptyString)) rest
  end.

Definition split (s : string) : list string := split_go None s.
End Ascii7.

#[export] Instance ascii_str : PyStr := {|
  lower := Ascii7.lower;
  strip := Ascii7.strip;
  split := Ascii7.split;
|}.

(** ** Data model ([src/models], [src/config.py]) *)

Definition SCHEMA_VERSION : string := "1.0".

Definition SKILLS_WEIGHT : Q := 0.4%Q.
Definition EXPERIENCE_WEIGHT : Q := 0.4%Q.
Definition EDUCATION_WEIGHT : Q := 0.2%Q.

Record ExperienceEntry := {
  exp_title : string;
  exp_company : string;
  exp_duration_months : option Z;
  exp_description : string;
}.

Record EducationEntry := {
  edu_degree : string;
  edu_institution : string;
  edu_year : option Z;
  edu_field : option string;
}.

Record ResumeData := {
  resume_name : string;
  resume_skills : list string;
  resume_experience : list ExperienceEntry;
  resume_education : list EducationEntry;
  resume_raw_text : string;
  resume_email : option string;
  resume_phone : option string;
  resume_schema_version : string;
}.

Record JobRequirements := {
  job_title : string;
  job_required_skills : list string;
  job_preferred_skills : list string;
  job_min_experience_years : Z;
  job_education_requirements : list string;
  job_responsibilities : list string;
  job_schema_version : string;
}.

Record MatchResult := {
  mr_resume : ResumeData;
  mr_overall_score : Q;
  mr_skills_score : Q;
  mr_experience_score : Q;
  mr_education_score : Q;
  mr_matched_skills : list string;
  mr_skill_gaps : list string;
  mr_strengths : list string;
  mr_schema_version : string;
}.

Record CandidateResult := {
  cr_rank : nat;
  cr_name : string;
  cr_overall_score : Q;
  cr_skills_score : Q;
  cr_experience_score : Q;
  cr_education_score : Q;
  cr_matched_skills : list string;
  cr_skill_gaps : list string;
  cr_strengths : list string;
  cr_explanation : string;
  cr_schema_version : string;
}.

Record ProcessingStatus := {
  ps_current_agent : string;
  ps_processed_count : nat;
  ps_total_count : nat;
  ps_is_complete : bool;
  ps_start_time : Q;
  ps_elapsed_seconds : Q;
  ps_error_message : option string;
  ps_schema_version : string;
}.

(** ** MatcherAgent ([src/agents/matcher.py]) *)

Section Matcher.
Context `{PyStr}.

(** [s.lower().strip()] *)
Definition normalize (s : string) : string := strip (lower s).

(** The set comprehension [{s.lower().strip() for s in skills}]. *)
Definition normalized_set (skills : list string) : gset string :=
  list_to_set (normalize <$> skills).

(** The dict comprehension [{s.lower().strip(): s for s in skills}]:
    entries are stored in list order, a later one replaces an earlier
    one under the same key. *)
Definition normalized_map (skills : list string) : gmap string string :=
  foldl (λ m s, <[normalize s := s]> m) ∅ skills.

Definition compute_score (skills_score experience_score education_score : Q) : Q :=
  (skills_score * SKILLS_WEIGHT +
   experience_score * EXPERIENCE_WEIGHT +
   education_score * EDUCATION_WEIGHT)%Q.

Definition _compute_skills_score (resume_skills required_skills : list string) : Q :=
  match required_skills with
  | [] => 100%Q
  | _ =>
      let resume_skills_lower := normalized_set resume_skills in
      let required_skills_lower := normalized_set required_skills in
      let matches := size (resume_skills_lower ∩ required_skills_lower) in
      py_min 100 (int_div (Z.of_nat matches)
                          (Z.of_nat (size required_skills_lower)) * 100)%Q
  end.

Definition total_months (experience : list ExperienceEntry) : Z :=
  sum_Z ((λ exp, or_zero (exp_duration_months exp)) <$> experience).

Definition _compute_experience_score
    (experience : list ExperienceEntry) (min_years : Z) : Q :=
  let min_years := or_zero (Some min_years) in
  if (min_years <=? 0)%Z then 100%Q
  else
    let total_years := int_div (total_months experience) 12 in
    if Qle_bool (inject_Z min_years) total_years then 100%Q
    else py_min 100 (total_years / inject_Z min_years * 100)%Q.

(** [f"{edu.degree} {edu.field or ''} {edu.institution}".lower()] *)
Definition education_line (edu : EducationEntry) : string :=
  lower (edu_degree edu +:+ " " +:+ or_empty (edu_field edu) +:+ " " +:+
         edu_institution edu).

Definition education_text (education : list EducationEntry) : string :=
  join " " (education_line <$> education).

(** [any(word in education_text for word in req.lower().split())] *)
Definition requirement_met (text req : string) : bool :=
  existsb (λ word, contains word text) (split (lower req)).

Definition _compute_education_score
    (education : list EducationEntry) (requirements : list string) : Q :=
  match requirements with
  | [] => 100%Q
  | _ =>
      match education with
      | [] => 0%Q
      | _ =>
          let text := education_text education in
          let matches :=
            foldl (λ matches req,
                     if requirement_met text req then S matches else matches)
                  0%nat requirements in
          py_min 100 (int_div (Z.of_nat matches)
                              (Z.of_nat (length requirements)) * 100)%Q
      end
  end.

Definition _find_matched_skills (resume_skills required_skills : list string)
    : list string :=
  let resume_skills_lower := normalized_map resume_skills in
  foldl (λ matched req_skill,
           match resume_skills_lower !! normalize req_skill with
           | Some original => matched ++ [original]
           | None => matched
           end)
        [] required_skills.

Definition identify_gaps (resume_skills required_skills : list string)
    : list string :=
  let resume_skills_lower := normalized_set resume_skills in
  foldl (λ gaps req_skill,
           if decide (normalize req_skill ∈ resume_skills_lower) then gaps
           else gaps ++ [req_skill])
        [] required_skills.

Definition identify_strengths (resume : ResumeData) (requirements : JobRequirements)
    : list string :=
  let strengths := [] in
  let matched_skills :=
    _find_matched_skills (resume_skills resume) (job_required_skills requirements) in
  let strengths :=
    match matched_skills with
    | [] => strengths
    | _ => strengths ++
           ["Has " +:+ pretty (length matched_skills) +:+ " of " +:+
            pretty (length (job_required_skills requirements)) +:+
            " required skills"]
    end in
  let total_years := int_div (total_months (resume_experience resume)) 12 in
  let min_exp_years := or_zero (Some (job_min_experience_years requirements)) in
  let strengths :=
    if (0 <? min_exp_years)%Z && Qle_bool (inject_Z min_exp_years) total_years
    then strengths ++
         ["Exceeds experience requirement (" +:+ format_1f total_years +:+ " years)"]
    else strengths in
  let preferred_matches :=
    _find_matched_skills (resume_skills resume) (job_preferred_skills requirements) in
  match preferred_matches with
  | [] => strengths
  | _ => strengths ++ ["Has " +:+ pretty (length preferred_matches) +:+ " preferred skills"]
  end.

Definition match_candidate (resume : ResumeData) (requirements : JobRequirements)
    : MatchResult :=
  let skills_score :=
    _compute_skills_score (resume_skills resume) (job_required_skills requirements) in
  let experience_score :=
    _compute_experience_score (resume_experience resume)
                              (job_min_experience_years requirements) in
  let education_score :=
    _compute_education_score (resume_education resume)
                             (job_education_requirements requirements) in
  let overall_score := compute_score skills_score experience_score education_score in
  let matched_skills :=
    _find_matched_skills (resume_skills resume) (job_required_skills requirements) in
  let skill_gaps :=
    identify_gaps (resume_skills resume) (job_required_skills requirements) in
  let strengths := identify_strengths resume requirements in
  {| mr_resume := resume;
     mr_overall_score := overall_score;
     mr_skills_score := skills_score;
     mr_experience_score := experience_score;
     mr_education_score := education_score;
     mr_matched_skills := matched_skills;
     mr_skill_gaps := skill_gaps;
     mr_strengths := strengths;
     mr_schema_version := SCHEMA_VERSION |}.
End Matcher.

(** ** RankerAgent ([src/agents/ranker.py]) *)

(** [sorted(l, key=key, reverse=True)]. Python's sort is stable, also with
    [reverse=True]: elements whose keys compare equal keep their order.
    The model is the stable insertion sort: an element is placed in front
    of the first one that its key is not smaller than. *)
Fixpoint insert_desc {A} (lt : A → A → bool) (x : A) (l : list A) : list A :=
  match l with
  | [] => [x]
  | y :: rest => if lt x y then y :: insert_desc lt x rest else x :: l
  end.

Definition sorted_reverse {A K} (key : A → K) (lt : K → K → bool) (l : list A)
    : list A :=
  foldr (insert_desc (λ a b, lt (key a) (key b))) [] l.

(** [enumerate(l, start)] *)
Definition enumerate {A} (start : nat) (l : list A) : list (nat * A) :=
  zip (seq start (length l)) l.

(** The sort key [(m.overall_score, len(m.matched_skills))]. *)
Definition sort_key (m : MatchResult) : Q * nat :=
  (mr_overall_score m, length (mr_matched_skills m)).

(** [a < b] on key tuples: the first components that differ decide. *)
Definition key_lt (a b : Q * nat) : bool :=
  if Qeq_bool a.1 b.1 then (a.2 <? b.2)%nat else negb (Qle_bool b.1 a.1).

Section Ranker.
Context `{PyStr}.

(** The explanation model behind [generate_explanation]: the response
    text for a candidate and its rank, or [None] when anything inside
    the [try] block raises (no API key, failed call, no text). *)
Variable explanation_model : MatchResult → nat → option string.

Definition _generate_simple_explanation (m : MatchResult) (rank : nat) : string :=
  let parts :=
    ["Ranked #" +:+ pretty rank +:+ " with " +:+
     format_1f (mr_overall_score m) +:+ "% match."] in
  let parts :=
    match mr_matched_skills m with
    | [] => parts
    | _ => parts ++ ["Has " +:+ pretty (length (mr_matched_skills m)) +:+
                     " matching skills."]
    end in
  let parts :=
    match mr_skill_gaps m with
    | [] => parts
    | _ => parts ++ ["Missing " +:+ pretty (length (mr_skill_gaps m)) +:+
                     " required skills."]
    end in
  let parts :=
    match mr_strengths m with
    | [] => parts
    | _ => parts ++ ["Strengths: " +:+ join ", " (take 2 (mr_strengths m)) +:+ "."]
    end in
  join " " parts.

Definition generate_explanation (m : MatchResult) (rank : nat) : string :=
  match explanation_model m rank with
  | Some text => strip text
  | None => _generate_simple_explanation m rank
  end.

Definition rank_candidates (matches : list MatchResult) (generate_explanations : bool)
    : list CandidateResult :=
  match matches with
  | [] => []
  | _ =>
      let sorted_matches := sorted_reverse sort_key key_lt matches in
      foldl (λ results '(rank, m),
               let explanation :=
                 if generate_explanations then generate_explanation m rank
                 else _generate_simple_explanation m rank in
               let result :=
                 {| cr_rank := rank;
                    cr_name := resume_name (mr_resume m);
                    cr_overall_score := mr_overall_score m;
                    cr_skills_score := mr_skills_score m;
                    cr_experience_score := mr_experience_score m;
                    cr_education_score := mr_education_score m;
                    cr_matched_skills := mr_matched_skills m;
                    cr_skill_gaps := mr_skill_gaps m;
                    cr_strengths := mr_strengths m;
                    cr_explanation := explanation;
                    cr_schema_version := SCHEMA_VERSION |} in
               results ++ [result])
            [] (enumerate 1 sorted_matches)
  end.
End Ranker.

(** ** ResumeScreeningRunner ([src/runner.py]) *)

(** A [(value, error_message)] pair as the agents return it. *)
Definition agent_result (A : Type) : Type := (option A * option string)%type.

(** The runner object: its four agents are attributes, the tests replace
    them. A call that can raise returns [inl] of the exception's message.
    The parser calls are indexed by the position of the candidate, as two
    calls on equal inputs need not give equal results. *)
Record ResumeScreeningRunner := {
  parser_parse_resume : nat → list Byte.byte → agent_result ResumeData;
  parser_parse_resume_from_text : nat → string → agent_result ResumeData;
  analyzer_analyze_job_description : string → agent_result JobRequirements;
  matcher_match_candidate :
    option ResumeData → option JobRequirements → string + MatchResult;
  ranker_rank_candidates :
    list MatchResult → bool → string + list CandidateResult;
}.

(** The mutable part of a run: [self._status], the number of readings of
    [datetime.now()] taken so far, and the snapshots that
    [on_status_update] has been called with. *)
Record RunnerState := {
  st_status : option ProcessingStatus;
  st_clock : nat;
  st_seen : list ProcessingStatus;
}.

(** How a call of [process] ends: with its return tuple, or with an
    exception that no handler of the runner catches. *)
Inductive outcome :=
  | Returned (results : list CandidateResult) (error : option string)
  | Raised (e : string).

Section Runner.
Context `{PyStr}.

(** [now n]: the [n]-th reading of the wall clock, in seconds. *)
Variable now : nat → Q.

Definition get_status (st : RunnerState) : option ProcessingStatus :=
  st_status st.

Definition _update_status (agent : string) (processed total : nat)
    (start_time : Q) (error : option string) (is_complete : bool)
    (st : RunnerState) : ProcessingStatus * RunnerState :=
  let elapsed := (now (st_clock st) - start_time)%Q in
  let status :=
    {| ps_current_agent := agent;
       ps_processed_count := processed;
       ps_total_count := total;
       ps_is_complete := is_complete;
       ps_start_time := start_time;
       ps_elapsed_seconds := elapsed;
       ps_error_message := error;
       ps_schema_version := SCHEMA_VERSION |} in
  (status,
   {| st_status := Some status;
      st_clock := S (st_clock st);
      st_seen := st_seen st |}).

(** The local [notify]: [on_status_update] is [true] when a callback was
    given. The callbacks of the model are those that record the snapshot
    they are handed; a callback that raises, or that changes the snapshot
    object, is outside it. *)
Definition notify (on_status_update : bool) (status : ProcessingStatus)
    (st : RunnerState) : RunnerState :=
  if on_status_update then
    {| st_status := st_status st;
       st_clock := st_clock st;
       st_seen := st_seen st ++ [status] |}
  else st.

(** [notify(self._update_status(...))] *)
Definition emit (on_status_update : bool) (agent : string)
    (processed total : nat) (start_time : Q) (error : option string)
    (is_complete : bool) (st : RunnerState) : RunnerState :=
  let '(status, st) :=
    _update_status agent processed total start_time error is_complete st in
  notify on_status_update status st.

(** [datetime.now()] at the start of a run. *)
Definition read_clock (st : RunnerState) : Q * RunnerState :=
  (now (st_clock st),
   {| st_status := st_status st;
      st_clock := S (st_clock st);
      st_seen := st_seen st |}).

(** ["; ".join(errors) if errors else None] *)
Definition error_summary (errors : list string) : option string :=
  match errors with
  | [] => None
  | _ => Some (join "; " errors)
  end.

Section Pipeline.
Context {Input : Type}.
Variable self : ResumeScreeningRunner.
Variable parse : nat → Input → agent_result ResumeData.
Variable on_status_update : bool.
Variable start_time : Q.

(** Step 2, the loop over [enumerate(pdf_files)] from index [i] on. *)
Fixpoint parse_loop (total_resumes i : nat) (inputs : list Input)
    (parsed_resumes : list (option ResumeData)) (errors : list string)
    (st : RunnerState)
    : list (option ResumeData) * list string * RunnerState :=
  match inputs with
  | [] => (parsed_resumes, errors, st)
  | input :: rest =>
      let st :=
        emit on_status_update "Parser" i total_resumes start_time None false st in
      let '(resume_data, error) := parse i input in
      if truthy error then
        parse_loop total_resumes (S i) rest parsed_resumes
          (errors ++ ["Resume " +:+ pretty (i + 1)%nat +:+ ": " +:+ or_empty error])
          st
      else
        parse_loop total_resumes (S i) rest (parsed_resumes ++ [resume_data])
          errors st
  end.

(** Step 3, the loop over [enumerate(parsed_resumes)] from index [i] on.
    Reading [resume.name] in the handler raises when the parser gave
    neither a resume nor an error. *)
Fixpoint match_loop (job_requirements : option JobRequirements)
    (total i : nat) (resumes : list (option ResumeData))
    (matches : list MatchResult) (errors : list string) (st : RunnerState)
    : (string + list MatchResult * list string) * RunnerState :=
  match resumes with
  | [] => (inr (matches, errors), st)
  | resume :: rest =>
      let st :=
        emit on_status_update "Matcher" i total start_time None false st in
      match matcher_match_candidate self resume job_requirements with
      | inr match_result =>
          match_loop job_requirements total (S i) rest
            (matches ++ [match_result]) errors st
      | inl e =>
          match resume with
          | Some r =>
              match_loop job_requirements total (S i) rest matches
                (errors ++ ["Matching " +:+ resume_name r +:+ ": " +:+ e]) st
          | None => (inl "'NoneType' object has no attribute 'name'", st)
          end
      end
  end.
End Pipeline.

(** The body shared by [process] and [process_from_text]. *)
Definition run {Input : Type} (self : ResumeScreeningRunner)
    (parse : nat → Input → agent_result ResumeData)
    (inputs : list Input) (job_description : string)
    (on_status_update generate_explanations : bool) (st : RunnerState)
    : outcome * RunnerState :=
  let '(start_time, st) := read_clock st in
  let total_resumes := length inputs in
  let st := emit on_status_update "Analyzer" 0 total_resumes start_time None false st in
  let '(job_requirements, error) :=
    analyzer_analyze_job_description self job_description in
  if truthy error then
    let st :=
      emit on_status_update "Analyzer" 0 total_resumes start_time error false st in
    (Returned [] (Some ("Failed to analyze job description: " +:+ or_empty error)), st)
  else
    let '(parsed_resumes, errors, st) :=
      parse_loop parse on_status_update start_time total_resumes 0 inputs [] [] st in
    match parsed_resumes with
    | [] =>
        let error_msg := "No resumes could be parsed" in
        let st :=
          emit on_status_update "Parser" total_resumes total_resumes start_time
               (Some error_msg) false st in
        (Returned [] (Some error_msg), st)
    | _ =>
        match match_loop self on_status_update start_time job_requirements
                (length parsed_resumes) 0 parsed_resumes [] errors st with
        | (inl e, st) => (Raised e, st)
        | (inr (matches, errors), st) =>
            match matches with
            | [] =>
                let error_msg := "No candidates could be matched" in
                let st :=
                  emit on_status_update "Matcher" (length parsed_resumes)
                       (length parsed_resumes) start_time (Some error_msg) false st in
                (Returned [] (Some error_msg), st)
            | _ =>
                let st :=
                  emit on_status_update "Ranker" 0 (length matches) start_time
                       None false st in
                let ranked :=
                  match ranker_rank_candidates self matches generate_explanations with
                  | inr results => inr results
                  | inl _ => ranker_rank_candidates self matches false
                  end in
                match ranked with
                | inl e => (Raised e, st)
                | inr results =>
                    let st :=
                      emit on_status_update "Complete" (length results)
                           (length results) start_time None true st in
                    (Returned results (error_summary errors), st)
                end
            end
        end
    end.

Definition process (self : ResumeScreeningRunner)
    (pdf_files : list (list Byte.byte)) (job_description : string)
    (on_status_update generate_explanations : bool) (st : RunnerState)
    : outcome * RunnerState :=
  run self (parser_parse_resume self) pdf_files job_description
      on_status_update generate_explanations st.

Definition process_from_text (self : ResumeScreeningRunner)
    (resume_texts : list string) (job_description : string)
    (on_status_update generate_explanations : bool) (st : RunnerState)
    : outcome * RunnerState :=
  run self (parser_parse_resume_from_text self) resume_texts job_description
      on_status_update generate_explanations st.

(** [MatcherAgent.match_candidate] as the runner calls it: reading an
    attribute of [None] raises. *)
Definition matcher_agent (resume : option ResumeData)
    (requirements : option JobRequirements) : string + MatchResult :=
  match resume, requirements with
  | Some r, Some j => inr (match_candidate r j)
  | None, _ => inl "'NoneType' object has no attribute 'skills'"
  | Some _, None => inl "'NoneType' object has no attribute 'required_skills'"
  end.

(** [RankerAgent.rank_candidates] as the runner calls it. *)
Definition ranker_agent (explanation_model : MatchResult → nat → option string)
    (matches : list MatchResult) (generate_explanations : bool)
    : string + list CandidateResult :=
  inr (rank_candidates explanation_model matches generate_explanations).

(** [ResumeScreeningRunner.__init__]: the matcher and the ranker are the
    agents above; the parser, the analyzer and the explanation model are
    the external collaborators. *)
Definition new_runner
    (parse_resume : nat → list Byte.byte → agent_result ResumeData)
    (parse_resume_from_text : nat → string → agent_result ResumeData)
    (analyze_job_description : string → agent_result JobRequirements)
    (explanation_model : MatchResult → nat → option string)
    : ResumeScreeningRunner :=
  {| parser_parse_resume := parse_resume;
     parser_parse_resume_from_text := parse_resume_from_text;
     analyzer_analyze_job_description := analyze_job_description;
     matcher_match_candidate := matcher_agent;
     ranker_rank_candidates := ranker_agent explanation_model |}.

Definition initial_state : RunnerState :=
  {| st_status := None; st_clock := 0; st_seen := [] |}.
End Runner.

(** ** Sample inputs *)

Module Sample.
Definition resume (name : string) (skills : list string)
    (experience : list ExperienceEntry) : ResumeData :=
  {| resume_name := name;
     resume_skills := skills;
     resume_experience := experience;
     resume_education := [];
     resume_raw_text := "";
     resume_email := None;
     resume_phone := None;
     resume_schema_version := SCHEMA_VERSION |}.

Definition job (required : list string) (min_years : Z) : JobRequirements :=
  {| job_title := "Engineer";
     job_required_skills := required;
     job_preferred_skills := [];
     job_min_experience_years := min_years;
     job_education_requirements := [];
     job_responsibilities := [];
     job_schema_version := SCHEMA_VERSION |}.

Definition months (n : option Z) : ExperienceEntry :=
  {| exp_title := "Developer";
     exp_company := "Acme";
     exp_duration_months := n;
     exp_description := "" |}.

(** The scenario of the specification: one resume skill, two required. *)
Definition python_resume : ResumeData := resume "Ann" ["python"] [].
Definition python_sql_job : JobRequirements := job ["Python"; "SQL"] 0.

(** Eighteen months against a minimum of two years. *)
Definition junior : ResumeData :=
  resume "Bob" ["SQL"] [months (Some 18%Z); months None].
Definition two_years_job : JobRequirements := job ["sql"] 2.

(** Skills that collide after normalization, on both sides. *)
Definition colliding_resume : ResumeData :=
  resume "Cid" ["SQL"; "sql "; "Python"] [].
Definition repeating_job : JobRequirements := job ["Sql"; " SQL"; "Go"; "go"] 0.
(** Match results with given scores and matched skills, for the ranker. *)
Definition scored (name : string) (score : Q) (matched gaps : list string)
    : MatchResult :=
  {| mr_resume := resume name matched [];
     mr_overall_score := score;
     mr_skills_score := score;
     mr_experience_score := score;
     mr_education_score := score;
     mr_matched_skills := matched;
     mr_skill_gaps := gaps;
     mr_strengths := [];
     mr_schema_version := SCHEMA_VERSION |}.

(** Two exact ties (by value, 1/2 of 100 against 50) around a leader. *)
Definition tied_field : list MatchResult :=
  [scored "Dee" 50 ["SQL"] ["Go"];
   scored "Eve" 80 ["SQL"; "Go"] [];
   scored "Fay" (100 # 2) ["Go"] ["SQL"];
   scored "Gus" 50 ["SQL"; "Go"] []].

(** No explanation model is reachable. *)
Definition offline : MatchResult → nat → option string := λ _ _, None.

(** A clock that advances by one second per reading. *)
Definition ticking (n : nat) : Q := inject_Z (Z.of_nat n).

Definition analyzed (job_description : string) : agent_result JobRequirements :=
  (Some python_sql_job, None).

(** A parser that fails on the second candidate only. *)
Definition second_unreadable (i : nat) (pdf : list Byte.byte)
    : agent_result ResumeData :=
  match i with
  | 0%nat => (Some python_resume, None)
  | 1%nat => (None, Some "Failed to parse resume: unreadable")
  | _ => (Some junior, None)
  end.

(** A parser that fails on every candidate. *)
Definition unreadable (i : nat) (pdf : list Byte.byte) : agent_result ResumeData :=
  (None, Some "Failed to parse resume: unreadable").

Definition no_text (i : nat) (text : string) : agent_result ResumeData :=
  (None, Some "Empty resume text").

Definition pdf : list Byte.byte := [Byte.x25; Byte.x50; Byte.x44; Byte.x46].

(** An analyzer that rejects the job description. *)
Definition rejecting (job_description : string) : agent_result JobRequirements :=
  (None, Some "Empty job description").

(** A runner whose matcher raises for every candidate. *)
Definition raising_matcher (resume : option ResumeData)
    (requirements : option JobRequirements) : string + MatchResult :=
  inl "scoring backend unavailable".

Definition runner_without_matcher : ResumeScreeningRunner :=
  {| parser_parse_resume := second_unreadable;
     parser_parse_resume_from_text := no_text;
     analyzer_analyze_job_description := analyzed;
     matcher_match_candidate := raising_matcher;
     ranker_rank_candidates := λ matches generate_explanations, inr [] |}.
End Sample.

(** ** Vocabulary of the statements *)

(** A score lies in the closed interval [0, 100]. *)
Definition in_range (q : Q) : Prop := (0 <= q)%Q ∧ (q <= 100)%Q.

(** Every known duration of the entries is non-negative. *)
Definition durations_nonneg (experience : list ExperienceEntry) : Prop :=
  Forall (λ exp, match exp_duration_months exp with
                 | Some d => (0 <= d)%Z
                 | None => True
                 end) experience.

(** The order of the ranking on sort keys, written out: a larger score
    comes first, equal scores are ordered by the number of matched skills. *)
Definition key_ge (a b : Q * nat) : Prop :=
  (b.1 < a.1)%Q ∨ ((a.1 == b.1)%Q ∧ (b.2 ≤ a.2)%nat).

(** Two keys tie exactly, on both fields. *)
Definition key_tie (a b : Q * nat) : Prop :=
  (a.1 == b.1)%Q ∧ a.2 = b.2.

#[export] Instance key_tie_dec a b : Decision (key_tie a b) :=
  match Qeq_dec a.1 b.1 with
  | left Hscore =>
      match decide (a.2 = b.2) with
      | left Hcount => left (conj Hscore Hcount)
      | right Hcount => right (λ Htie, Hcount (proj2 Htie))
      end
  | right Hscore => right (λ Htie, Hscore (proj1 Htie))
  end.

(** A candidate result carries the fields of a match result. *)
Definition carries (c : CandidateResult) (m : MatchResult) : Prop :=
  cr_name c = resume_name (mr_resume m) ∧
  cr_overall_score c = mr_overall_score m ∧
  cr_skills_score c = mr_skills_score m ∧
  cr_experience_score c = mr_experience_score m ∧
  cr_education_score c = mr_education_score m ∧
  cr_matched_skills c = mr_matched_skills m ∧
  cr_skill_gaps c = mr_skill_gaps m ∧
  cr_strengths c = mr_strengths m.

(** The sort key as read off a candidate result. *)
Definition cr_sort_key (c : CandidateResult) : Q * nat :=
  (cr_overall_score c, length (cr_matched_skills c)).

(** The result that the loop of [rank_candidates] builds for one entry of
    [enumerate(sorted_matches, start=1)]. *)
Definition result_of `{PyStr} (explanation_model : MatchResult → nat → option string)
    (generate_explanations : bool) (entry : nat * MatchResult) : CandidateResult :=
  let '(rank, m) := entry in
  {| cr_rank := rank;
     cr_name := resume_name (mr_resume m);
     cr_overall_score := mr_overall_score m;
     cr_skills_score := mr_skills_score m;
     cr_experience_score := mr_experience_score m;
     cr_education_score := mr_education_score m;
     cr_matched_skills := mr_matched_skills m;
     cr_skill_gaps := mr_skill_gaps m;
     cr_strengths := mr_strengths m;
     cr_explanation :=
       if generate_explanations then generate_explanation explanation_model m rank
       else _generate_simple_explanation m rank;
     cr_schema_version := SCHEMA_VERSION |}.












(** The run reached the ranking stage: it returned results. *)
Definition ranked (out : outcome) : Prop :=
  ∃ results error, out = Returned results error ∧ results ≠ [].




(** ** Input validation ([src/utils/validation.py]) *)

Definition MAX_PDF_FILES : Z := 50.
Definition MAX_JOB_DESCRIPTION_LENGTH : Z := 10000.
Definition MIN_JOB_DESCRIPTION_LENGTH : Z := 1.

Record ValidationResult := {
  is_valid : bool;
  error_message : option string;
}.

(** [ValidationResult(is_valid=True)] and
    [ValidationResult(is_valid=False, error_message=...)]. *)
Definition accepted : ValidationResult :=
  {| is_valid := true; error_message := None |}.

Definition rejected (message : string) : ValidationResult :=
  {| is_valid := false; error_message := Some message |}.

(** [len(x)] as a Python integer. *)
Definition len {A} (l : list A) : Z := Z.of_nat (length l).

(** [data.startswith(prefix)] on bytes. *)
Fixpoint bytes_startswith (data prefix : list Byte.byte) {struct prefix} : bool :=
  match prefix, data with
  | [], _ => true
  | p :: prefix', d :: data' => Byte.eqb p d && bytes_startswith data' prefix'
  | _ :: _, [] => false
  end.

(** The magic bytes [b'%PDF']. *)
Definition PDF_MAGIC : list Byte.byte := [Byte.x25; Byte.x50; Byte.x44; Byte.x46].

Definition is_pdf (file_bytes : list Byte.byte) : bool :=
  match file_bytes with
  | [] => false
  | _ => bytes_startswith file_bytes PDF_MAGIC
  end.

(** [str(l)] for a list of integers: ["[1, 3]"]. *)
Definition int_list_repr (l : list Z) : string :=
  "[" +:+ join ", " (pretty <$> l) +:+ "]".

(** The loop of [validate_pdf_files] over [enumerate(files)] from index [i]. *)
Fixpoint invalid_positions (i : Z) (files : list (list Byte.byte)) (invalid_files : list Z)
    : list Z :=
  match files with
  | [] => invalid_files
  | file_bytes :: rest =>
      invalid_positions (i + 1) rest
        (if is_pdf file_bytes then invalid_files else invalid_files ++ [(i + 1)%Z])
  end.

Definition validate_pdf_files (files : list (list Byte.byte)) : ValidationResult :=
  match files with
  | [] => rejected "No files uploaded. Please upload at least one PDF resume."
  | _ =>
      if (MAX_PDF_FILES <? len files)%Z then
        rejected ("Too many files. Maximum allowed is " +:+ pretty MAX_PDF_FILES +:+
                  ", got " +:+ pretty (len files) +:+ ".")
      else
        let invalid_files := invalid_positions 0 files [] in
        match invalid_files with
        | [] => accepted
        | _ =>
            rejected ("Invalid file format. Files at positions " +:+
                      int_list_repr invalid_files +:+
                      " are not valid PDFs. Only PDF format is supported.")
        end
  end.

Definition validate_file_count (count : Z) : ValidationResult :=
  if (count <? 1)%Z then
    rejected "No files uploaded. Please upload at least one PDF resume."
  else if (MAX_PDF_FILES <? count)%Z then
    rejected ("Too many files. Maximum allowed is " +:+ pretty MAX_PDF_FILES +:+
              ", got " +:+ pretty count +:+ ".")
  else accepted.

(** [len(s)] of a string. *)
Definition str_len (s : string) : Z := Z.of_nat (String.length s).

Definition validate_job_description `{PyStr} (description : string)
    : ValidationResult :=
  match description with
  | EmptyString =>
      rejected "Job description is required. Please enter a job description."
  | _ =>
      let stripped := strip description in
      if (str_len stripped <? MIN_JOB_DESCRIPTION_LENGTH)%Z then
        rejected "Job description is too short. Please provide more details."
      else if (MAX_JOB_DESCRIPTION_LENGTH <? str_len stripped)%Z then
        rejected ("Job description is too long. Maximum allowed is " +:+
                  pretty MAX_JOB_DESCRIPTION_LENGTH +:+ " characters, got " +:+
                  pretty (str_len stripped) +:+ ".")
      else accepted
  end.

Definition validate_job_description_length (length : Z) : ValidationResult :=
  if (length <? MIN_JOB_DESCRIPTION_LENGTH)%Z then
    rejected "Job description is too short. Please provide more details."
  else if (MAX_JOB_DESCRIPTION_LENGTH <? length)%Z then
    rejected ("Job description is too long. Maximum allowed is " +:+
              pretty MAX_JOB_DESCRIPTION_LENGTH +:+ " characters.")
  else accepted.

(** ** The agents around the language model
    ([src/agents/analyzer.py], [src/agents/parser.py],
    [src/utils/pdf_extractor.py]) *)

(** [not text or not text.strip()] *)
Definition blank `{PyStr} (text : string) : bool :=
  match text with
  | EmptyString => true
  | _ => match strip text with EmptyString => true | _ => false end
  end.

(** [AnalyzerAgent.analyze_job_description]. [model_call] is the [try]
    block: the prompt, the call of the model, the decoding of its answer
    and the construction of the record, with the error message of
    whichever of them fails. *)
Definition analyze_job_description `{PyStr}
    (model_call : string → agent_result JobRequirements) (description : string)
    : agent_result JobRequirements :=
  if blank description then (None, Some "Empty job description")
  else model_call description.

(** [ParserAgent.parse_resume_from_text], with its [try] block as
    [model_call]. *)
Definition parse_resume_from_text `{PyStr}
    (model_call : string → agent_result ResumeData) (text : string)
    : agent_result ResumeData :=
  if blank text then (None, Some "Empty resume text")
  else model_call text.

(** [PDFExtractor.extract_text]. [fitz] is [None] when PyMuPDF cannot be
    imported; else it opens the document and reads the text of each page,
    or gives the message of the exception raised on the way. *)
Definition extract_text `{PyStr}
    (fitz : option (list Byte.byte → string + list string))
    (pdf_bytes : list Byte.byte) : string * option string :=
  match fitz with
  | None => ("", Some "PyMuPDF not installed. Run: pip install PyMuPDF")
  | Some read_pages =>
      match pdf_bytes with
      | [] => ("", Some "Empty PDF file")
      | _ =>
          match read_pages pdf_bytes with
          | inl e => ("", Some ("Failed to extract PDF text: " +:+ e))
          | inr [] => ("", Some "PDF has no pages")
          | inr pages =>
              let text_parts :=
                foldl (λ text_parts text,
                         match text with
                         | EmptyString => text_parts
                         | _ => text_parts ++ [text]
                         end) [] pages in
              let full_text := strip (join (String "010" EmptyString) text_parts) in
              match full_text with
              | EmptyString => ("", Some "PDF contains no extractable text")
              | _ => (full_text, None)
              end
          end
      end
  end.

(** [ParserAgent.parse_resume], with its [try] block as [model_call]. *)
Definition parse_resume `{PyStr}
    (fitz : option (list Byte.byte → string + list string))
    (model_call : string → agent_result ResumeData) (pdf_bytes : list Byte.byte)
    : agent_result ResumeData :=
  let '(text, error) := extract_text fitz pdf_bytes in
  if truthy error then (None, error) else model_call text.

(** [s.split("\n")]: the pieces between line feeds, empty ones kept. *)
Fixpoint split_lines (s : string) : list string :=
  match s with
  | EmptyString => [EmptyString]
  | String c rest =>
      if Ascii.eqb c "010" then EmptyString :: split_lines rest
      else
        match split_lines rest with
        | [] => [String c EmptyString]
        | line :: lines => String c line :: lines
        end
  end.

(** [lines[1:-1]] *)
Definition inner {A} (lines : list A) : list A :=
  take (length lines - 2) (drop 1 lines).

(** What the agents do with the model's answer before decoding it:
    [response.text.strip()], and without its first and last line when it
    starts with a code fence. *)
Definition clean_response `{PyStr} (response_text : string) : string :=
  let response_text := strip response_text in
  if String.prefix "```" response_text then
    let lines := split_lines response_text in
    join (String "010" EmptyString) (inner lines)
  else response_text.

(** [ResumeScreeningRunner.__init__]: the runner over the four agents of
    the repository. The models answer per candidate position, as a call of
    the language model may answer differently each time. *)
Definition screening_runner `{PyStr}
    (fitz : option (list Byte.byte → string + list string))
    (pdf_model text_model : nat → string → agent_result ResumeData)
    (job_model : string → agent_result JobRequirements)
    (explanation_model : MatchResult → nat → option string)
    : ResumeScreeningRunner :=
  new_runner (λ i, parse_resume fitz (pdf_model i))
             (λ i, parse_resume_from_text (text_model i))
             (analyze_job_description job_model)
             explanation_model.

(** A text without a line feed. *)
Fixpoint single_line (s : string) : bool :=
  match s with
  | EmptyString => true
  | String c rest => negb (Ascii.eqb c "010") && single_line rest
  end.

(** ** ExportService ([src/utils/export.py]) *)

(** The dictionary that [get_export_metadata] returns, by key. *)
Record ExportMetadata := {
  meta_timestamp : string;
  meta_job_summary : string;
  meta_total_candidates : nat;
  meta_top_candidate : option string;
  meta_top_score : option Q;
}.

(** [timestamp] is [datetime.now().isoformat()] as read by the call. *)
Definition get_export_metadata (timestamp : string)
    (results : list CandidateResult) (job_summary : string) : ExportMetadata :=
  {| meta_timestamp := timestamp;
     meta_job_summary := job_summary;
     meta_total_candidates := length results;
     meta_top_candidate :=
       match results with
       | [] => None
       | _ => cr_name <$> results !! 0%nat
       end;
     meta_top_score :=
       match results with
       | [] => None
       | _ => cr_overall_score <$> results !! 0%nat
       end |}.

(** ** More vocabulary *)

(** One key is strictly ahead of another in the ranking order. *)
Definition key_gt (a b : Q * nat) : Prop :=
  (b.1 < a.1)%Q ∨ ((a.1 == b.1)%Q ∧ (b.2 < a.2)%nat).

(** Two candidate results agree on everything but the explanation. *)
Definition same_ranking (a b : CandidateResult) : Prop :=
  cr_rank a = cr_rank b ∧
  cr_name a = cr_name b ∧
  cr_overall_score a = cr_overall_score b ∧
  cr_skills_score a = cr_skills_score b ∧
  cr_experience_score a = cr_experience_score b ∧
  cr_education_score a = cr_education_score b ∧
  cr_matched_skills a = cr_matched_skills b ∧
  cr_skill_gaps a = cr_skill_gaps b ∧
  cr_strengths a = cr_strengths b ∧
  cr_schema_version a = cr_schema_version b.

(** The position of an agent in the pipeline
    Analyzer, Parser, Matcher, Ranker, Complete. *)
Definition stage_of (agent : string) : nat :=
  if String.eqb agent "Analyzer" then 0
  else if String.eqb agent "Parser" then 1
  else if String.eqb agent "Matcher" then 2
  else if String.eqb agent "Ranker" then 3
  else if String.eqb agent "Complete" then 4
  else 5.

(** Snapshot [a] is of a stage not after that of snapshot [b]. *)
Definition stage_le (a b : ProcessingStatus) : Prop :=
  (stage_of (ps_current_agent a) ≤ stage_of (ps_current_agent b))%nat.

(** The candidates of a batch with what the parser returned for each:
    [(i, (resume_data, error))] for the candidate at index [i]. *)
Definition parse_outcomes {Input : Type}
    (parse : nat → Input → agent_result ResumeData) (inputs : list Input)
    : list (nat * agent_result ResumeData) :=
  imap (λ i input, (i, parse i input)) inputs.

Definition parse_failed (o : nat * agent_result ResumeData) : Prop :=
  truthy o.2.2 = true.

(** The resumes of the candidates whose parse reported no error. *)
Definition parsed_resumes_of (outcomes : list (nat * agent_result ResumeData))
    : list (option ResumeData) :=
  (λ o, o.2.1) <$> filter (λ o, ¬ parse_failed o) outcomes.

(** The entries recorded for the candidates whose parse reported one. *)
Definition parse_errors_of (outcomes : list (nat * agent_result ResumeData))
    : list string :=
  (λ o, "Resume " +:+ pretty (o.1 + 1)%nat +:+ ": " +:+ or_empty o.2.2)
    <$> filter parse_failed outcomes.

(** The snapshots emitted between [st] and [st'] carry the start time read
    at [st], and each one's elapsed time is the clock reading taken for it,
    the readings being consecutive, minus that start time. *)
Definition timed_from (now : nat → Q) (st st' : RunnerState) : Prop :=
  ∃ emitted,
    st_seen st' = st_seen st ++ emitted ∧
    st_clock st' = (S (st_clock st) + length emitted)%nat ∧
    ∀ i s, emitted !! i = Some s →
           ps_start_time s = now (st_clock st) ∧
           ps_elapsed_seconds s =
           (now (S (st_clock st) + i)%nat - now (st_clock st))%Q.

(** The clock never goes back. *)
Definition monotone_clock (now : nat → Q) : Prop :=
  ∀ n m, (n ≤ m)%nat → (now n <= now m)%Q.

(** * Properties *)

(** ** Arithmetic on scores *)

Lemma py_min_le a b : (py_min a b <= a)%Q.
Proof. unfold py_min. destruct (Qlt_le_dec b a); [by apply Qlt_le_weak | apply Qle_refl]. Qed.

Lemma py_min_in_range q : (0 <= q)%Q → in_range (py_min 100 q).
Proof.
  intros Hq. split; [|apply py_min_le].
  unfold py_min. destruct (Qlt_le_dec q 100); [done | by compute].
Qed.

Lemma py_min_below a b : (b < a)%Q → py_min a b = b.
Proof.
  intros Hlt. unfold py_min. destruct (Qlt_le_dec b a) as [|Hle]; [done|].
  exfalso. by apply (Qle_not_lt _ _ Hle).
Qed.

Lemma inject_Z_pos z : (0 < z)%Z → (0 < inject_Z z)%Q.
Proof. intros Hz. change 0%Q with (inject_Z 0). by rewrite <- Zlt_Qlt. Qed.

Lemma inject_Z_nonneg z : (0 <= z)%Z → (0 <= inject_Z z)%Q.
Proof. intros Hz. change 0%Q with (inject_Z 0). by rewrite <- Zle_Qle. Qed.

Lemma percent_nonneg x y : (0 <= x)%Q → (0 < y)%Q → (0 <= x / y * 100)%Q.
Proof.
  intros Hx Hy.
  assert (0 <= x / y)%Q as Hdiv.
  { apply Qle_shift_div_l; [done|]. by rewrite Qmult_0_l. }
  lra.
Qed.

Lemma percent_le x y : (x <= y)%Q → (0 < y)%Q → (x / y * 100 <= 100)%Q.
Proof.
  intros Hxy Hy.
  assert (x / y <= 1)%Q as Hdiv.
  { apply Qle_shift_div_r; [done|]. by rewrite Qmult_1_l. }
  lra.
Qed.

Lemma percent_lt x y : (x < y)%Q → (0 < y)%Q → (x / y * 100 < 100)%Q.
Proof.
  intros Hxy Hy.
  assert (x / y < 1)%Q as Hdiv.
  { apply Qlt_shift_div_r; [done|]. by rewrite Qmult_1_l. }
  lra.
Qed.

Lemma int_percent_in_range (a b : nat) :
  (a ≤ b)%nat → (0 < b)%nat →
  in_range (py_min 100 (int_div (Z.of_nat a) (Z.of_nat b) * 100)%Q).
Proof.
  intros Hab Hb. apply py_min_in_range. unfold int_div.
  apply percent_nonneg; [apply inject_Z_nonneg | apply inject_Z_pos]; lia.
Qed.

(** ** Loops that append *)

Lemma foldl_snoc_omap {A B} (f : A → option B) (l : list A) (acc : list B) :
  foldl (λ acc x, match f x with Some y => acc ++ [y] | None => acc end) acc l
  = acc ++ omap f l.
Proof.
  revert acc. induction l as [|x l IH]; intros acc; simpl.
  - by rewrite app_nil_r.
  - rewrite IH. destruct (f x); [|done]. by rewrite <- app_assoc.
Qed.

Lemma foldl_snoc_unless {A} (P : A → Prop) `{!∀ x, Decision (P x)}
    (l : list A) (acc : list A) :
  foldl (λ acc x, if decide (P x) then acc else acc ++ [x]) acc l
  = acc ++ filter (λ x, ¬ P x) l.
Proof.
  revert acc. induction l as [|x l IH]; intros acc; simpl.
  - by rewrite app_nil_r.
  - rewrite IH, filter_cons. destruct (decide (P x)).
    + by rewrite decide_False by tauto.
    + rewrite decide_True by done. by rewrite <- app_assoc.
Qed.

Lemma foldl_count {A} (p : A → bool) (l : list A) (n : nat) :
  foldl (λ n x, if p x then S n else n) n l =
  (n + length (filter (λ x, p x = true) l))%nat.
Proof.
  revert n. induction l as [|x l IH]; intros n; simpl; [lia|].
  rewrite IH, filter_cons. destruct (p x); case_decide; simpl; (done || lia).
Qed.

(** ** The skill tables *)

Section SkillTables.
Context `{Hstr : PyStr}.

Lemma elem_of_normalized_set k skills :
  k ∈ normalized_set skills ↔ ∃ s, s ∈ skills ∧ normalize s = k.
Proof.
  unfold normalized_set. rewrite elem_of_list_to_set, list_elem_of_fmap.
  split; intros (s & H1 & H2); exists s; by split.
Qed.

(** The dict keeps, under each key, the last skill with that key. *)
Lemma normalized_map_lookup skills k :
  normalized_map skills !! k = last (filter (λ s, normalize s = k) skills).
Proof.
  unfold normalized_map. induction skills as [|s skills IH] using rev_ind.
  - done.
  - rewrite foldl_app, filter_app. simpl.
    rewrite filter_cons, filter_nil.
    destruct (decide (normalize s = k)) as [->|Hne].
    + rewrite lookup_insert_eq. by rewrite last_snoc.
    + rewrite lookup_insert_ne by done. by rewrite app_nil_r.
Qed.

Lemma last_filter_elem {A} (P : A → Prop) `{!∀ x, Decision (P x)} l x :
  last (filter P l) = Some x → x ∈ l ∧ P x.
Proof.
  intros Hlast. apply last_Some_elem_of in Hlast.
  by apply list_elem_of_filter in Hlast as [? ?].
Qed.

Lemma last_filter_None {A} (P : A → Prop) `{!∀ x, Decision (P x)} l :
  last (filter P l) = None ↔ ∀ x, x ∈ l → ¬ P x.
Proof.
  rewrite last_None. split.
  - intros Hnil x Hx HP. by apply (filter_nil_not_elem_of P l x).
  - induction l as [|y l IH]; intros Hall; [done|].
    rewrite filter_cons_False by (apply Hall; left).
    apply IH. intros x Hx. apply Hall. by right.
Qed.

Lemma normalized_map_is_Some skills k :
  is_Some (normalized_map skills !! k) ↔ k ∈ normalized_set skills.
Proof.
  rewrite normalized_map_lookup, elem_of_normalized_set. split.
  - intros [s Hs]. apply last_filter_elem in Hs as [? ?]. by exists s.
  - intros (s & Hin & Hk).
    destruct (last (filter (λ s, normalize s = k) skills)) eqn:Hlast; [eauto|].
    rewrite last_filter_None in Hlast. by destruct (Hlast s Hin).
Qed.

Lemma _find_matched_skills_omap resume_skills required_skills :
  _find_matched_skills resume_skills required_skills =
  omap (λ r, normalized_map resume_skills !! normalize r) required_skills.
Proof.
  unfold _find_matched_skills.
  by rewrite (foldl_snoc_omap (λ r, normalized_map resume_skills !! normalize r)).
Qed.

Lemma identify_gaps_filter resume_skills required_skills :
  identify_gaps resume_skills required_skills =
  filter (λ r, normalize r ∉ normalized_set resume_skills) required_skills.
Proof.
  unfold identify_gaps.
  by rewrite (foldl_snoc_unless (λ r, normalize r ∈ normalized_set resume_skills)).
Qed.
End SkillTables.

(** ** The component scores *)

Section Scores.
Context `{Hstr : PyStr}.

Lemma normalized_set_size_pos r required :
  (0 < size (normalized_set (r :: required)))%nat.
Proof.
  assert (size (normalized_set (r :: required)) ≠ 0%nat); [|lia].
  apply size_non_empty_iff. intros Hempty.
  assert (normalize r ∈ normalized_set (r :: required)) as Hin.
  { apply elem_of_normalized_set. exists r. split; [left | done]. }
  rewrite Hempty in Hin. by apply not_elem_of_empty in Hin.
Qed.

Lemma skills_score_in_range resume_skills required_skills :
  in_range (_compute_skills_score resume_skills required_skills).
Proof.
  destruct required_skills as [|r required]; simpl.
  - by compute.
  - apply int_percent_in_range.
    + apply subseteq_size, intersection_subseteq_r.
    + apply normalized_set_size_pos.
Qed.

Lemma education_score_in_range education requirements :
  in_range (_compute_education_score education requirements).
Proof.
  destruct requirements as [|req requirements]; [by compute|].
  destruct education as [|edu education]; [by compute|].
  unfold _compute_education_score.
  rewrite (foldl_count (requirement_met _)). simpl "+"%nat.
  apply int_percent_in_range; [apply length_filter | simpl; lia].
Qed.

Lemma total_months_nonneg experience :
  durations_nonneg experience → (0 <= total_months experience)%Z.
Proof.
  unfold total_months, durations_nonneg.
  induction 1 as [|exp experience Hexp _ IH]; [done|].
  rewrite fmap_cons. unfold sum_Z in *. rewrite foldr_cons.
  assert (0 <= or_zero (exp_duration_months exp))%Z; [|lia].
  unfold or_zero. destruct (exp_duration_months exp) as [d|]; [|done].
  destruct (Z.eqb_spec d 0); lia.
Qed.

Lemma total_years_nonneg experience :
  durations_nonneg experience → (0 <= int_div (total_months experience) 12)%Q.
Proof.
  intros Hexp. unfold int_div.
  apply Qle_shift_div_l; [done|]. rewrite Qmult_0_l.
  by apply inject_Z_nonneg, total_months_nonneg.
Qed.

Lemma or_zero_Some z : or_zero (Some z) = z.
Proof. unfold or_zero. by destruct (Z.eqb_spec z 0). Qed.

(** The deficit branch: the requirement is positive and not reached. *)
Lemma experience_score_deficit experience min_years :
  (0 < inject_Z min_years)%Q →
  (int_div (total_months experience) 12 < inject_Z min_years)%Q →
  _compute_experience_score experience min_years =
  py_min 100 (int_div (total_months experience) 12 / inject_Z min_years * 100)%Q.
Proof.
  intros Hmin Hlt. unfold _compute_experience_score.
  rewrite or_zero_Some.
  change 0%Q with (inject_Z 0) in Hmin. rewrite <- Zlt_Qlt in Hmin.
  destruct (Z.leb_spec min_years 0); [lia|].
  destruct (Qle_bool _ _) eqn:Hle; [|done].
  apply Qle_bool_imp_le in Hle. by destruct (Qle_not_lt _ _ Hle).
Qed.

Lemma experience_score_in_range experience min_years :
  durations_nonneg experience →
  in_range (_compute_experience_score experience min_years).
Proof.
  intros Hexp. unfold _compute_experience_score. rewrite or_zero_Some.
  destruct (Z.leb_spec min_years 0); [by compute|].
  destruct (Qle_bool _ _); [by compute|].
  apply py_min_in_range, percent_nonneg.
  - by apply total_years_nonneg.
  - apply inject_Z_pos. lia.
Qed.

Lemma compute_score_in_range s e d :
  in_range s → in_range e → in_range d → in_range (compute_score s e d).
Proof.
  unfold in_range, compute_score, SKILLS_WEIGHT, EXPERIENCE_WEIGHT, EDUCATION_WEIGHT.
  intros [? ?] [? ?] [? ?]. split; lra.
Qed.
End Scores.

(** ** Claims on the matcher *)

Section MatcherClaims.
Context `{Hstr : PyStr}.

(** C1. For every [MatchResult] that [match_candidate] returns, the
    overall score equals [0.4*skills_score + 0.4*experience_score +
    0.2*education_score] within the absolute tolerance [0.01]. *)
Theorem overall_score_weighted_sum resume requirements :
  let m := match_candidate resume requirements in
  (Qabs (mr_overall_score m -
         (0.4 * mr_skills_score m + 0.4 * mr_experience_score m +
          0.2 * mr_education_score m)) <= 0.01)%Q.
Proof.
  unfold match_candidate.
  cbn [mr_overall_score mr_skills_score mr_experience_score mr_education_score].
  unfold compute_score, SKILLS_WEIGHT, EXPERIENCE_WEIGHT, EDUCATION_WEIGHT.
  set (s := _compute_skills_score _ _).
  set (e := _compute_experience_score _ _).
  set (d := _compute_education_score _ _).
  apply Qabs_case; intros _; lra.
Qed.

(** C2. When every experience entry's [duration_months] is absent or a
    non-negative integer and [min_experience_years] is a non-negative
    integer, the four scores of the [MatchResult] lie in [0, 100]; and in
    the deficit branch of the experience score (total years strictly
    below the positive minimum) the value [(total_years/min_years)*100]
    is strictly below 100, so that the cap [min(100.0, _)] leaves it
    unchanged. *)
Theorem match_scores_in_range resume requirements :
  durations_nonneg (resume_experience resume) →
  (0 <= job_min_experience_years requirements)%Z →
  let m := match_candidate resume requirements in
  let total_years := int_div (total_months (resume_experience resume)) 12 in
  let min_years := inject_Z (job_min_experience_years requirements) in
  in_range (mr_overall_score m) ∧
  in_range (mr_skills_score m) ∧
  in_range (mr_experience_score m) ∧
  in_range (mr_education_score m) ∧
  ((0 < min_years)%Q → (total_years < min_years)%Q →
   (total_years / min_years * 100 < 100)%Q ∧
   py_min 100 (total_years / min_years * 100)%Q = (total_years / min_years * 100)%Q ∧
   mr_experience_score m = (total_years / min_years * 100)%Q).
Proof.
  intros Hexp Hmin. unfold match_candidate.
  cbn [mr_overall_score mr_skills_score mr_experience_score mr_education_score].
  pose proof (skills_score_in_range (resume_skills resume)
                (job_required_skills requirements)) as Hs.
  pose proof (experience_score_in_range _
                (job_min_experience_years requirements) Hexp) as He.
  pose proof (education_score_in_range (resume_education resume)
                (job_education_requirements requirements)) as Hd.
  split; [by apply compute_score_in_range|].
  do 3 (split; [done|]).
  intros Hpos Hlt. split; [|split].
  - by apply percent_lt.
  - by apply py_min_below, percent_lt.
  - rewrite experience_score_deficit by done.
    by apply py_min_below, percent_lt.
Qed.

(** C3. For every pair of skill lists, the normalized skill gaps united
    with the normalized matched skills are the normalized required
    skills, and the two sets are disjoint. *)
Theorem gaps_and_matched_partition resume_skills required_skills :
  let gaps := identify_gaps resume_skills required_skills in
  let matched := _find_matched_skills resume_skills required_skills in
  normalized_set gaps ∪ normalized_set matched = normalized_set required_skills ∧
  normalized_set gaps ## normalized_set matched.
Proof.
  simpl. rewrite identify_gaps_filter, _find_matched_skills_omap.
  assert (∀ k, k ∈ normalized_set
                 (omap (λ r, normalized_map resume_skills !! normalize r)
                       required_skills)
               ↔ k ∈ normalized_set required_skills ∧
                 k ∈ normalized_set resume_skills) as Hmatched.
  { intros k. rewrite !elem_of_normalized_set. split.
    - intros (s & Hs & <-). apply list_elem_of_omap in Hs as (r & Hr & Hlook).
      rewrite normalized_map_lookup in Hlook.
      apply last_filter_elem in Hlook as [Hin Heq].
      split; [exists r | exists s]; by rewrite ?Heq.
    - intros [(r & Hr & <-) Hres].
      apply elem_of_normalized_set, normalized_map_is_Some in Hres as [s Hs].
      exists s. split.
      + apply list_elem_of_omap. by exists r.
      + rewrite normalized_map_lookup in Hs.
        by apply last_filter_elem in Hs as [_ ?]. }
  assert (∀ k, k ∈ normalized_set
                 (filter (λ r, normalize r ∉ normalized_set resume_skills)
                         required_skills)
               ↔ k ∈ normalized_set required_skills ∧
                 k ∉ normalized_set resume_skills) as Hgaps.
  { intros k. split.
    - intros Hk. apply elem_of_normalized_set in Hk as (r & Hr & <-).
      apply list_elem_of_filter in Hr as [Hnot Hr].
      split; [|done]. apply elem_of_normalized_set. by exists r.
    - intros [Hk Hnot]. apply elem_of_normalized_set in Hk as (r & Hr & <-).
      apply elem_of_normalized_set. exists r. split; [|done].
      by apply list_elem_of_filter. }
  split.
  - apply set_eq. intros k. rewrite elem_of_union, Hmatched, Hgaps.
    destruct (decide (k ∈ normalized_set resume_skills)); tauto.
  - apply elem_of_disjoint. intros k. rewrite Hmatched, Hgaps. tauto.
Qed.
End MatcherClaims.

Lemma match_scores_in_range_witness :
  durations_nonneg (resume_experience Sample.junior) ∧
  (0 <= job_min_experience_years Sample.two_years_job)%Z ∧
  in_range (mr_overall_score (match_candidate Sample.junior Sample.two_years_job)) ∧
  mr_experience_score (match_candidate Sample.junior Sample.two_years_job)
  = (int_div 18 12 / inject_Z 2 * 100)%Q.
Proof.
  assert (durations_nonneg (resume_experience Sample.junior)) as Hexp.
  { repeat constructor. simpl. lia. }
  assert (0 <= job_min_experience_years Sample.two_years_job)%Z as Hmin.
  { simpl. lia. }
  pose proof (match_scores_in_range Sample.junior Sample.two_years_job Hexp Hmin)
    as (Hoverall & _ & _ & _ & Hdeficit).
  split; [exact Hexp|]. split; [exact Hmin|]. split; [exact Hoverall|].
  apply Hdeficit; reflexivity.
Defined.

(** ** Claims on skill matching, on ASCII text *)

(** C7 (as amended). For [required_skills = ["Python", "SQL"]] and
    [resume_skills = ["python"]], [match_candidate] yields
    [skills_score = 50.0], the matched-skills list [["python"]], whose
    single entry is the resume's own spelling, and [skill_gaps = ["SQL"]]. *)
Theorem python_sql_scenario resume requirements :
  resume_skills resume = ["python"] →
  job_required_skills requirements = ["Python"; "SQL"] →
  let m := match_candidate resume requirements in
  (mr_skills_score m == 50)%Q ∧
  mr_matched_skills m = ["python"] ∧
  mr_skill_gaps m = ["SQL"].
Proof.
  intros Hresume Hrequired. unfold match_candidate.
  cbn [mr_skills_score mr_matched_skills mr_skill_gaps].
  rewrite Hresume, Hrequired.
  split; [|split]; by vm_compute.
Qed.

Lemma python_sql_scenario_witness :
  resume_skills Sample.python_resume = ["python"] ∧
  job_required_skills Sample.python_sql_job = ["Python"; "SQL"] ∧
  mr_matched_skills (match_candidate Sample.python_resume Sample.python_sql_job)
  = ["python"].
Proof.
  split; [reflexivity|]. split; [reflexivity|].
  apply (python_sql_scenario Sample.python_resume Sample.python_sql_job);
    reflexivity.
Defined.

(** C7 as the specification words it fails: the matched entry is not
    rendered in the required skill's casing. *)
Lemma python_sql_required_casing_refuted :
  ¬ (let m := match_candidate Sample.python_resume Sample.python_sql_job in
     (mr_skills_score m == 50)%Q ∧
     mr_matched_skills m = ["Python"] ∧
     mr_skill_gaps m = ["SQL"]).
Proof. intros (_ & Hmatched & _). vm_compute in Hmatched. discriminate. Qed.

(** ** Duplicates among the skills *)

Section Duplicates.
Context `{Hstr : PyStr}.

Lemma length_omap_filter_None {A B} (f : A → option B) (l : list A) :
  (length (omap f l) + length (filter (λ x, f x = None) l) = length l)%nat.
Proof.
  induction l as [|x l IH]; [done|].
  change (omap f (x :: l))
    with (match f x with Some y => y :: omap f l | None => omap f l end).
  destruct (f x) eqn:Hfx.
  - rewrite filter_cons_False by congruence. simpl. lia.
  - rewrite filter_cons_True by done. simpl. lia.
Qed.

Lemma size_normalized_set skills :
  size (normalized_set skills) = length (remove_dups (normalize <$> skills)).
Proof.
  unfold normalized_set.
  rewrite <- (size_list_to_set (C := gset string)
                (remove_dups (normalize <$> skills)))
    by apply NoDup_remove_dups.
  f_equal. apply set_eq. intros k.
  by rewrite !elem_of_list_to_set, elem_of_remove_dups.
Qed.

Lemma not_normalized_iff resume_skills r :
  normalize r ∉ normalized_set resume_skills ↔
  last (filter (λ s, normalize s = normalize r) resume_skills) = None.
Proof.
  rewrite <- normalized_map_lookup, <- normalized_map_is_Some.
  rewrite eq_None_not_Some. done.
Qed.

(** C10. When several resume skills normalize to the same string, the
    matched-skills list of [match_candidate] holds the one that occurs
    last in the resume's skill list; each occurrence of a required skill
    yields one entry, in the matched skills or in the skill gaps; and the
    denominator of the skills score counts each normalized required
    skill once. *)
Theorem duplicate_skills resume requirements :
  let m := match_candidate resume requirements in
  let required := job_required_skills requirements in
  let last_spelling r :=
    last (filter (λ s, normalize s = normalize r) (resume_skills resume)) in
  mr_matched_skills m = omap last_spelling required ∧
  mr_skill_gaps m = filter (λ r, last_spelling r = None) required ∧
  (∀ r s, r ∈ required → last_spelling r = Some s → s ∈ mr_matched_skills m) ∧
  (length (mr_matched_skills m) + length (mr_skill_gaps m) = length required)%nat ∧
  (required ≠ [] →
   mr_skills_score m =
   py_min 100
     (int_div
        (Z.of_nat (size (normalized_set (resume_skills resume) ∩
                         normalized_set required)))
        (Z.of_nat (length (remove_dups (normalize <$> required)))) * 100)%Q).
Proof.
  unfold match_candidate.
  cbn [mr_matched_skills mr_skill_gaps mr_skills_score].
  set (required := job_required_skills requirements).
  set (skills := resume_skills resume).
  assert (_find_matched_skills skills required =
          omap (λ r, last (filter (λ s, normalize s = normalize r) skills))
               required) as Hmatched.
  { rewrite _find_matched_skills_omap. apply list_omap_ext, Forall2_same_length_lookup.
    split; [done|]. intros i r r' Hr Hr'. rewrite Hr in Hr'. injection Hr' as <-.
    apply normalized_map_lookup. }
  assert (identify_gaps skills required =
          filter (λ r, last (filter (λ s, normalize s = normalize r) skills) = None)
                 required) as Hgaps.
  { rewrite identify_gaps_filter. apply list_filter_iff. intros r.
    apply not_normalized_iff. }
  rewrite Hmatched, Hgaps.
  split; [done|]. split; [done|]. split; [|split].
  - intros r s Hr Hlast. apply list_elem_of_omap. by exists r.
  - apply length_omap_filter_None.
  - intros Hne. unfold _compute_skills_score.
    destruct required as [|r required']; [done|].
    by rewrite (size_normalized_set (r :: required')).
Qed.
End Duplicates.

Lemma duplicate_skills_witness :
  job_required_skills Sample.repeating_job ≠ [] ∧
  mr_matched_skills (match_candidate Sample.colliding_resume Sample.repeating_job)
  = ["sql "; "sql "] ∧
  mr_skill_gaps (match_candidate Sample.colliding_resume Sample.repeating_job)
  = ["Go"; "go"] ∧
  (mr_skills_score (match_candidate Sample.colliding_resume Sample.repeating_job)
   == 50)%Q.
Proof.
  assert (job_required_skills Sample.repeating_job ≠ []) as Hne by discriminate.
  pose proof (duplicate_skills Sample.colliding_resume Sample.repeating_job)
    as (Hmatched & Hgaps & _ & _ & Hscore).
  split; [exact Hne|]. split; [|split].
  - rewrite Hmatched. reflexivity.
  - rewrite Hgaps. reflexivity.
  - rewrite (Hscore Hne). reflexivity.
Defined.

(** ** The order on sort keys *)

Lemma Qeq_bool_reflect a b : reflect (a == b)%Q (Qeq_bool a b).
Proof.
  destruct (Qeq_bool a b) eqn:Heq; constructor.
  - by apply Qeq_bool_eq.
  - by apply Qeq_bool_neq.
Qed.

Lemma Qle_bool_reflect a b : reflect (a <= b)%Q (Qle_bool a b).
Proof.
  destruct (Qle_bool a b) eqn:Hle; constructor.
  - by apply Qle_bool_iff.
  - rewrite <- Qle_bool_iff. congruence.
Qed.

Lemma key_lt_false a b : key_lt a b = false ↔ key_ge a b.
Proof.
  unfold key_lt, key_ge. destruct a as [qa na], b as [qb nb]. simpl.
  destruct (Qeq_bool_reflect qa qb) as [Heq|Hne].
  - rewrite Nat.ltb_ge. split; [by right|].
    intros [Hlt|[_ ?]]; [lra | done].
  - destruct (Qle_bool_reflect qb qa) as [Hle|Hnle]; simpl.
    + split; [|done]. intros _. left.
      apply Qle_lteq in Hle as [?|Heq]; [done|]. by destruct Hne.
    + split; [done|]. intros [Hlt|[Heq _]]; [|done].
      destruct Hnle. by apply Qlt_le_weak.
Qed.

Lemma key_lt_true a b : key_lt a b = true → key_ge b a.
Proof.
  unfold key_lt, key_ge. destruct a as [qa na], b as [qb nb]. simpl.
  destruct (Qeq_bool_reflect qa qb) as [Heq|Hne].
  - rewrite Nat.ltb_lt. intros Hlt. right. split; [by symmetry | lia].
  - destruct (Qle_bool_reflect qb qa) as [Hle|Hnle]; simpl; [done|].
    intros _. left. by apply Qnot_le_lt.
Qed.

Lemma key_ge_trans a b c : key_ge a b → key_ge b c → key_ge a c.
Proof.
  unfold key_ge. destruct a as [qa na], b as [qb nb], c as [qc nc]. simpl.
  intros [Hab|[Hab ?]] [Hbc|[Hbc ?]].
  - left. lra.
  - left. lra.
  - left. lra.
  - right. split; [lra | lia].
Qed.

(** Two keys that tie with a third one are not ordered by [<]. *)
Lemma key_tie_not_lt a b k : key_tie a k → key_tie b k → key_lt a b = false.
Proof.
  intros [Ha1 Ha2] [Hb1 Hb2]. apply key_lt_false. right.
  split; [lra | lia].
Qed.

(** ** The stable descending sort *)

Section SortedReverse.
Context {A K : Type} (key : A → K) (lt : K → K → bool).

Local Abbreviation insert := (insert_desc (λ a b, lt (key a) (key b))).
Local Abbreviation ge := (λ a b : A, lt (key a) (key b) = false).

Lemma insert_desc_perm x l : insert x l ≡ₚ x :: l.
Proof.
  induction l as [|y l IH]; simpl; [done|].
  destruct (lt (key x) (key y)); [|done].
  rewrite IH. apply Permutation_swap.
Qed.

Lemma sorted_reverse_perm l : sorted_reverse key lt l ≡ₚ l.
Proof.
  induction l as [|x l IH]; simpl; [done|].
  fold (sorted_reverse key lt l). by rewrite insert_desc_perm, IH.
Qed.

Lemma sorted_reverse_length l : length (sorted_reverse key lt l) = length l.
Proof. by rewrite sorted_reverse_perm. Qed.

Hypothesis lt_flip : ∀ a b, lt a b = true → lt b a = false.
Hypothesis ge_trans : ∀ a b c, lt a b = false → lt b c = false → lt a c = false.

Lemma insert_desc_sorted x l :
  StronglySorted ge l → StronglySorted ge (insert x l).
Proof.
  induction 1 as [|y l Hsorted IH Hy]; simpl.
  - repeat constructor.
  - destruct (lt (key x) (key y)) eqn:Hxy.
    + constructor; [done|].
      rewrite insert_desc_perm. constructor; [by apply lt_flip | done].
    + constructor; [by constructor|].
      constructor; [done|].
      eapply Forall_impl; [exact Hy|]. intros z Hz. by eapply ge_trans.
Qed.

Lemma sorted_reverse_sorted l : StronglySorted ge (sorted_reverse key lt l).
Proof.
  induction l as [|x l IH]; simpl; [constructor|].
  by apply insert_desc_sorted.
Qed.

(** Stability: an element enters in front of those it is not below. *)
Lemma insert_desc_filter (P : A → Prop) `{!∀ a, Decision (P a)} x l :
  (∀ y, P x → P y → lt (key x) (key y) = false) →
  filter P (insert x l) = filter P (x :: l).
Proof.
  intros Hties. induction l as [|y l IH]; simpl; [done|].
  destruct (lt (key x) (key y)) eqn:Hxy; [|done].
  rewrite filter_cons, IH, !(filter_cons _ x), (filter_cons _ y).
  destruct (decide (P x)) as [Hx|Hx]; [|done].
  destruct (decide (P y)) as [Hy|Hy]; [|done].
  rewrite (Hties y Hx Hy) in Hxy. done.
Qed.

Lemma sorted_reverse_filter (P : A → Prop) `{!∀ a, Decision (P a)} l :
  (∀ x y, P x → P y → lt (key x) (key y) = false) →
  filter P (sorted_reverse key lt l) = filter P l.
Proof.
  intros Hties. induction l as [|x l IH]; simpl; [done|].
  fold (sorted_reverse key lt l).
  rewrite insert_desc_filter by (by apply Hties).
  by rewrite !filter_cons, IH.
Qed.
End SortedReverse.

(** ** The ranker's loop *)

Lemma foldl_snoc_fmap {A B} (f : A → B) (l : list A) (acc : list B) :
  foldl (λ acc x, acc ++ [f x]) acc l = acc ++ (f <$> l).
Proof.
  revert acc. induction l as [|x l IH]; intros acc; simpl.
  - by rewrite app_nil_r.
  - by rewrite IH, <- app_assoc.
Qed.

Lemma foldl_pointwise {A B} (f g : A → B → A) (l : list B) (acc : A) :
  (∀ acc x, f acc x = g acc x) → foldl f acc l = foldl g acc l.
Proof.
  intros Hfg. revert acc. induction l as [|x l IH]; intros acc; simpl; [done|].
  by rewrite Hfg, IH.
Qed.

Lemma enumerate_cons {A} start (x : A) l :
  enumerate start (x :: l) = (start, x) :: enumerate (S start) l.
Proof. done. Qed.

Lemma StronglySorted_Forall2 {A B} (R : A → A → Prop) (R' : B → B → Prop)
    (T : B → A → Prop) (l' : list B) (l : list A) :
  (∀ a b a' b', T a' a → T b' b → R a b → R' a' b') →
  Forall2 T l' l → StronglySorted R l → StronglySorted R' l'.
Proof.
  intros Hrel. induction 1 as [|x' x l' l Hx Hl IH]; [constructor|].
  intros Hsorted. apply StronglySorted_inv in Hsorted as [Hsorted Hall].
  constructor; [by apply IH|].
  clear IH Hsorted. induction Hl as [|y' y l' l Hy Hl IH]; [constructor|].
  apply Forall_cons in Hall as [Hxy Hall].
  constructor; [by eapply Hrel | by apply IH].
Qed.

Section RankerLoop.
Context `{Hstr : PyStr}.
Variable explanation_model : MatchResult → nat → option string.
Variable generate_explanations : bool.

Local Abbreviation build := (result_of explanation_model generate_explanations).

Lemma rank_candidates_fmap matches :
  rank_candidates explanation_model matches generate_explanations =
  build <$> enumerate 1 (sorted_reverse sort_key key_lt matches).
Proof.
  destruct matches as [|m matches]; [done|].
  unfold rank_candidates.
  rewrite <- (app_nil_l (build <$> _)), <- foldl_snoc_fmap.
  apply foldl_pointwise. by intros results [rank candidate].
Qed.

Lemma build_carries start sorted_matches :
  Forall2 carries (build <$> enumerate start sorted_matches) sorted_matches.
Proof.
  revert start. induction sorted_matches as [|m l IH]; intros start.
  - constructor.
  - rewrite enumerate_cons, fmap_cons. constructor; [|apply IH].
    by repeat split.
Qed.

Lemma build_ranks start sorted_matches :
  cr_rank <$> (build <$> enumerate start sorted_matches) =
  seq start (length sorted_matches).
Proof.
  revert start. induction sorted_matches as [|m l IH]; intros start; [done|].
  rewrite enumerate_cons, !fmap_cons, IH. done.
Qed.

End RankerLoop.

Lemma carries_sort_key c m : carries c m → cr_sort_key c = sort_key m.
Proof.
  intros (_ & Hscore & _ & _ & _ & Hmatched & _).
  unfold cr_sort_key, sort_key. by rewrite Hscore, Hmatched.
Qed.

Lemma Forall2_filter_carries {A B} (T : B → A → Prop) (P' : B → Prop) (P : A → Prop)
    `{!∀ x, Decision (P' x), !∀ x, Decision (P x)} (l' : list B) (l : list A) :
  (∀ x' x, T x' x → (P' x' ↔ P x)) →
  Forall2 T l' l → Forall2 T (filter P' l') (filter P l).
Proof.
  intros HP. induction 1 as [|x' x l' l Hx Hl IH]; [constructor|].
  rewrite !filter_cons. specialize (HP x' x Hx).
  destruct (decide (P' x')), (decide (P x)); try tauto. by constructor.
Qed.

(** ** Claims on the ranker *)

Section RankerClaims.
Context `{Hstr : PyStr}.
Variable explanation_model : MatchResult → nat → option string.

(** C4. For a non-empty list of match results, [rank_candidates] returns a
    list of the same length whose ranks are 1..N in order, sorted
    descending by the key [(overall_score, number of matched skills)],
    where candidates whose keys tie on both fields keep their input order;
    for the empty list it returns the empty list. *)
Theorem rank_candidates_ranking matches generate_explanations :
  let results := rank_candidates explanation_model matches generate_explanations in
  (matches ≠ [] →
   length results = length matches ∧
   cr_rank <$> results = seq 1 (length matches) ∧
   StronglySorted (λ a b, key_ge (cr_sort_key a) (cr_sort_key b)) results ∧
   (∃ sorted_matches,
      Forall2 carries results sorted_matches ∧ sorted_matches ≡ₚ matches) ∧
   (∀ k, Forall2 carries
           (filter (λ c, key_tie (cr_sort_key c) k) results)
           (filter (λ m, key_tie (sort_key m) k) matches))) ∧
  rank_candidates explanation_model [] generate_explanations = [].
Proof.
  intros results. split; [|done]. intros _. subst results.
  rewrite rank_candidates_fmap.
  set (sorted_matches := sorted_reverse sort_key key_lt matches).
  pose proof (build_carries explanation_model generate_explanations 1 sorted_matches)
    as Hcarries.
  assert (length sorted_matches = length matches) as Hlen
    by apply sorted_reverse_length.
  split; [|split; [|split; [|split]]].
  - by rewrite (Forall2_length _ _ _ Hcarries).
  - by rewrite build_ranks, Hlen.
  - eapply StronglySorted_Forall2; [|exact Hcarries|].
    + intros a b a' b' Ha Hb Hab. simpl in Hab.
      rewrite (carries_sort_key _ _ Ha), (carries_sort_key _ _ Hb). exact Hab.
    + eapply StronglySorted_Forall2 with (T := eq) (l := sorted_matches).
      * intros a b a' b' -> -> Hab. apply key_lt_false, Hab.
      * clear. induction sorted_matches; by constructor.
      * apply sorted_reverse_sorted.
        -- intros a b Hab. by apply key_lt_false, key_lt_true.
        -- intros a b c Hab Hbc. apply key_lt_false.
           eapply key_ge_trans; by apply key_lt_false.
  - exists sorted_matches. split; [done | apply sorted_reverse_perm].
  - intros k.
    rewrite <- (sorted_reverse_filter sort_key key_lt
                  (λ m, key_tie (sort_key m) k) matches).
    + apply Forall2_filter_carries; [|done].
      intros c m Hc. by rewrite (carries_sort_key _ _ Hc).
    + intros x y. apply key_tie_not_lt.
Qed.
End RankerClaims.

Lemma rank_candidates_ranking_witness :
  Sample.tied_field ≠ [] ∧
  cr_rank <$> rank_candidates Sample.offline Sample.tied_field false = [1; 2; 3; 4] ∧
  cr_name <$> rank_candidates Sample.offline Sample.tied_field false
  = ["Eve"; "Gus"; "Dee"; "Fay"].
Proof.
  assert (Sample.tied_field ≠ []) as Hne by discriminate.
  destruct (rank_candidates_ranking Sample.offline Sample.tied_field false)
    as [Hranking _].
  destruct (Hranking Hne) as (_ & Hranks & _).
  split; [exact Hne|]. split; [exact Hranks | reflexivity].
Defined.

(** ** The deterministic explanation *)




Section Explanation.
Context `{Hstr : PyStr}.


End Explanation.



Section ExplanationClaims.
Context `{Hstr : PyStr}.
Variable explanation_model : MatchResult → nat → option string.

End ExplanationClaims.

Example simple_explanation_sample :
  cr_explanation <$> rank_candidates Sample.offline Sample.tied_field false =
  ["Ranked #1 with 80.0% match. Has 2 matching skills.";
   "Ranked #2 with 50.0% match. Has 2 matching skills.";
   "Ranked #3 with 50.0% match. Has 1 matching skills. Missing 1 required skills.";
   "Ranked #4 with 50.0% match. Has 1 matching skills. Missing 1 required skills."].
Proof. reflexivity. Qed.

(** ** Status snapshots of a run *)

Section Snapshots.
Context `{Hstr : PyStr}.
Variable now : nat → Q.

Lemma st_seen_emit agent processed total start_time error is_complete st :
  st_seen (emit now true agent processed total start_time error is_complete st) =
  st_seen st ++
  [(_update_status now agent processed total start_time error is_complete st).1].
Proof. done. Qed.


Section Loops.
Context {Input : Type}.
Variable self : ResumeScreeningRunner.
Variable parse : nat → Input → agent_result ResumeData.
Variable start_time : Q.


End Loops.






End Snapshots.

(** ** The parser stage when every candidate fails *)

Section AllFail.
Context `{Hstr : PyStr}.
Variable now : nat → Q.
Context {Input : Type}.
Variable parse : nat → Input → agent_result ResumeData.

(** The entry that the parser stage records for candidate [i]. *)
Local Abbreviation recorded :=
  (λ (i : nat) (input : Input),
     "Resume " +:+ pretty (i + 1)%nat +:+ ": " +:+ or_empty (parse i input).2).

Lemma parse_loop_all_fail on start_time total i inputs parsed errors st :
  (∀ k input, inputs !! k = Some input → truthy (parse (i + k) input).2 = true) →
  (parse_loop now parse on start_time total i inputs parsed errors st).1 =
  (parsed, errors ++ imap (λ k, recorded (i + k)) inputs).
Proof.
  revert i errors st.
  induction inputs as [|input rest IH]; intros i errors st Hfail.
  - simpl. by rewrite app_nil_r.
  - cbn [parse_loop].
    pose proof (Hfail 0%nat input eq_refl) as Hfirst. rewrite Nat.add_0_r in Hfirst.
    destruct (parse i input) as [resume_data error] eqn:Hparse.
    cbn [snd] in Hfirst. rewrite Hfirst, IH.
    + rewrite imap_cons, <- app_assoc, Nat.add_0_r, Hparse. cbn [snd].
      do 2 f_equal. simpl. f_equal. apply imap_ext.
      intros k input' _. unfold compose.
      by replace (i + S k)%nat with (S (i + k)) by lia.
    + intros k input' Hk. rewrite Nat.add_succ_l, <- Nat.add_succ_r.
      by apply Hfail.
Qed.
End AllFail.

Lemma rank_candidates_length `{PyStr} explanation_model matches generate_explanations :
  length (rank_candidates explanation_model matches generate_explanations) =
  length matches.
Proof.
  rewrite rank_candidates_fmap.
  rewrite (Forall2_length _ _ _
             (build_carries explanation_model generate_explanations 1 _)).
  apply sorted_reverse_length.
Qed.

Lemma error_summary_cons e errors :
  error_summary (e :: errors) = Some (join "; " (e :: errors)).
Proof. done. Qed.

Lemma contains_prefix needle rest : contains needle (needle +:+ rest) = true.
Proof.
  assert (String.prefix needle (needle +:+ rest) = true) as Hprefix.
  { induction needle as [|c needle IH]; simpl; [by destruct rest|].
    by destruct (ascii_dec c c). }
  destruct needle; simpl in *; [by destruct rest | by rewrite Hprefix].
Qed.

(** ** Claims on the runner *)

Section RunnerClaims.
Context `{Hstr : PyStr}.
Variable now : nat → Q.

(** C5. For a batch of three candidates where exactly the second fails
    extraction and the other two parse, match and rank, [process] returns
    two results together with the combined error, which contains
    "Resume 2:" and is the "; "-joined list of the accumulated errors
    ([None] when there are none); the last snapshot emitted has
    [is_complete = true]. *)
Theorem second_candidate_fails
    parse_resume parse_resume_from_text analyze_job_description explanation_model
    first second third job_description generate_explanations st
    job job_error resume1 error1 result2 message resume3 error3 :
  analyze_job_description job_description = (Some job, job_error) →
  truthy job_error = false →
  parse_resume 0%nat first = (Some resume1, error1) → truthy error1 = false →
  parse_resume 1%nat second = (result2, Some message) → message ≠ "" →
  parse_resume 2%nat third = (Some resume3, error3) → truthy error3 = false →
  let self := new_runner parse_resume parse_resume_from_text
                analyze_job_description explanation_model in
  let combined := "Resume 2: " +:+ message in
  ∃ results final st',
    process now self [first; second; third] job_description true
            generate_explanations st = (Returned results (Some combined), st') ∧
    length results = 2%nat ∧
    contains "Resume 2:" combined = true ∧
    Some combined = error_summary ["Resume 2: " +:+ message] ∧
    error_summary [] = None ∧
    (∀ e errors, error_summary (e :: errors) = Some (join "; " (e :: errors))) ∧
    last (st_seen st') = Some final ∧
    ps_is_complete final = true.
Proof.
  intros Hjob Hjob_error Hfirst Herror1 Hsecond Hmessage Hthird Herror3 self combined.
  assert (truthy (Some message) = true) as Htruthy by (by destruct message).
  unfold process, run. cbn [read_clock].
  cbn [self new_runner analyzer_analyze_job_description parser_parse_resume
       matcher_match_candidate ranker_rank_candidates].
  rewrite Hjob, Hjob_error. cbn [parse_loop length].
  rewrite Hfirst, Herror1, Hsecond, Htruthy, Hthird, Herror3.
  cbn [app match_loop matcher_agent length ranker_agent].
  eexists _, _, _. split; [reflexivity|].
  split; [by rewrite rank_candidates_length|].
  split; [apply (contains_prefix "Resume 2:")|].
  split; [done|]. split; [done|]. split; [done|].
  split; [rewrite (st_seen_emit now "Complete"); apply last_snoc | reflexivity].
Qed.

(** C6. When the job description is analyzed and the parser returns an
    error for every input, [process] emits a terminal error snapshot and
    returns no results with the error "No resumes could be parsed"; the
    errors recorded per candidate, one for each input, are not part of
    what is returned. *)
Theorem no_resume_parsed self pdf_files job_description generate_explanations st
    job job_error :
  analyzer_analyze_job_description self job_description = (job, job_error) →
  truthy job_error = false →
  (∀ i pdf, pdf_files !! i = Some pdf →
            truthy (parser_parse_resume self i pdf).2 = true) →
  ∃ final st',
    process now self pdf_files job_description true generate_explanations st
    = (Returned [] (Some "No resumes could be parsed"), st') ∧
    last (st_seen st') = Some final ∧
    ps_current_agent final = "Parser" ∧
    ps_processed_count final = length pdf_files ∧
    ps_total_count final = length pdf_files ∧
    ps_is_complete final = false ∧
    ps_error_message final = Some "No resumes could be parsed" ∧
    (∀ on_status_update start_time total st0,
       (parse_loop now (parser_parse_resume self) on_status_update start_time
                   total 0 pdf_files [] [] st0).1 =
       ([], imap (λ i pdf, "Resume " +:+ pretty (i + 1)%nat +:+ ": " +:+
                           or_empty (parser_parse_resume self i pdf).2)
                 pdf_files)).
Proof.
  intros Hjob Hjob_error Hfail.
  assert (∀ on_status_update start_time total st0,
            (parse_loop now (parser_parse_resume self) on_status_update start_time
                        total 0 pdf_files [] [] st0).1 =
            ([], imap (λ i pdf, "Resume " +:+ pretty (i + 1)%nat +:+ ": " +:+
                                or_empty (parser_parse_resume self i pdf).2)
                      pdf_files)) as Hloop.
  { intros. by rewrite parse_loop_all_fail. }
  unfold process, run. cbn [read_clock]. rewrite Hjob, Hjob_error.
  match goal with
  | |- context [parse_loop now ?p ?on ?start ?total 0%nat pdf_files [] [] ?st0] =>
      pose proof (Hloop on start total st0) as Hparsed;
      destruct (parse_loop now p on start total 0%nat pdf_files [] [] st0)
        as [[parsed errors] st2]
  end.
  cbn [fst] in Hparsed. injection Hparsed as -> _.
  eexists _, _. split; [reflexivity|].
  split; [rewrite (st_seen_emit now "Parser"); apply last_snoc|].
  by repeat split.
Qed.

End RunnerClaims.

Lemma second_candidate_fails_witness :
  Sample.analyzed "Engineer wanted" = (Some Sample.python_sql_job, None) ∧
  Sample.second_unreadable 1 Sample.pdf
  = (None, Some "Failed to parse resume: unreadable") ∧
  ∃ results st',
    process Sample.ticking
      (new_runner Sample.second_unreadable Sample.no_text Sample.analyzed
                  Sample.offline)
      [Sample.pdf; Sample.pdf; Sample.pdf] "Engineer wanted" true false
      initial_state
    = (Returned results (Some "Resume 2: Failed to parse resume: unreadable"), st') ∧
    length results = 2%nat.
Proof.
  split; [reflexivity|]. split; [reflexivity|].
  destruct (second_candidate_fails Sample.ticking
              Sample.second_unreadable Sample.no_text Sample.analyzed Sample.offline
              Sample.pdf Sample.pdf Sample.pdf "Engineer wanted" false initial_state
              Sample.python_sql_job None Sample.python_resume None
              None "Failed to parse resume: unreadable" Sample.junior None
              eq_refl eq_refl eq_refl eq_refl eq_refl
              ltac:(discriminate) eq_refl eq_refl)
    as (results & final & st' & Hrun & Hlength & _).
  exists results, st'. split; [exact Hrun | exact Hlength].
Defined.

Lemma no_resume_parsed_witness :
  (∀ i pdf, [Sample.pdf; Sample.pdf] !! i = Some pdf →
            truthy (Sample.unreadable i pdf).2 = true) ∧
  ∃ st',
    process Sample.ticking
      (new_runner Sample.unreadable Sample.no_text Sample.analyzed Sample.offline)
      [Sample.pdf; Sample.pdf] "Engineer wanted" true true initial_state
    = (Returned [] (Some "No resumes could be parsed"), st').
Proof.
  assert (∀ i pdf, [Sample.pdf; Sample.pdf] !! i = Some pdf →
                   truthy (Sample.unreadable i pdf).2 = true) as Hfail
    by (intros; reflexivity).
  split; [exact Hfail|].
  destruct (no_resume_parsed Sample.ticking
              (new_runner Sample.unreadable Sample.no_text Sample.analyzed
                          Sample.offline)
              [Sample.pdf; Sample.pdf] "Engineer wanted" true initial_state
              (Some Sample.python_sql_job) None eq_refl eq_refl Hfail)
    as (final & st' & Hrun & _).
  exists st'. exact Hrun.
Defined.

(** A whole run, evaluated: three candidates, the second unreadable. *)
Example partial_failure_run :
  let '(out, st) :=
    process Sample.ticking
      (new_runner Sample.second_unreadable Sample.no_text Sample.analyzed
                  Sample.offline)
      [Sample.pdf; Sample.pdf; Sample.pdf] "Engineer wanted" true false
      initial_state in
  match out with
  | Returned results error => (cr_name <$> results, error)
  | Raised e => ([], Some e)
  end = (["Ann"; "Bob"], Some "Resume 2: Failed to parse resume: unreadable") ∧
  (λ s, (ps_current_agent s, ps_processed_count s, ps_total_count s,
         ps_is_complete s)) <$> st_seen st =
  [("Analyzer", 0, 3, false); ("Parser", 0, 3, false); ("Parser", 1, 3, false);
   ("Parser", 2, 3, false); ("Matcher", 0, 2, false); ("Matcher", 1, 2, false);
   ("Ranker", 0, 2, false); ("Complete", 2, 2, true)]%nat.
Proof. by vm_compute. Qed.

(** * Further properties of the matcher *)

(** ** Percentages of counts *)

Lemma py_min_mono x y : (x <= y)%Q → (py_min 100 x <= py_min 100 y)%Q.
Proof.
  intros Hxy. unfold py_min.
  destruct (Qlt_le_dec x 100), (Qlt_le_dec y 100); lra.
Qed.

Lemma int_div_mono a a' b :
  (a <= a')%Z → (0 < b)%Z → (int_div a b <= int_div a' b)%Q.
Proof.
  intros Ha Hb. unfold int_div.
  apply Qmult_le_compat_r; [by rewrite <- Zle_Qle|].
  apply Qlt_le_weak, Qinv_lt_0_compat, inject_Z_pos, Hb.
Qed.

Lemma int_div_self b : (0 < b)%Z → (int_div b b == 1)%Q.
Proof.
  intros Hb. unfold int_div. apply Qmult_inv_r.
  intros Hzero. apply inject_Z_pos in Hb. lra.
Qed.

Lemma int_div_lt_1 a b : (a < b)%Z → (0 < b)%Z → (int_div a b < 1)%Q.
Proof.
  intros Hab Hb. unfold int_div.
  apply Qlt_shift_div_r; [by apply inject_Z_pos|].
  rewrite Qmult_1_l. by rewrite <- Zlt_Qlt.
Qed.

Lemma int_div_zero b : (int_div 0 b == 0)%Q.
Proof. unfold int_div, Qdiv. change (inject_Z 0) with 0%Q. apply Qmult_0_l. Qed.

Lemma int_div_pos a b : (0 < a)%Z → (0 < b)%Z → (0 < int_div a b)%Q.
Proof.
  intros Ha Hb. unfold int_div.
  apply Qlt_shift_div_l; [by apply inject_Z_pos|].
  rewrite Qmult_0_l. by apply inject_Z_pos.
Qed.

(** The capped percentage of [a] out of [b] is 100 exactly when [a = b]. *)
Lemma capped_percent_full (a b : nat) :
  (a ≤ b)%nat → (0 < b)%nat →
  (py_min 100 (int_div (Z.of_nat a) (Z.of_nat b) * 100) == 100)%Q ↔ a = b.
Proof.
  intros Hab Hb. split.
  - intros Hfull. destruct (decide (a = b)) as [|Hne]; [done|].
    assert (int_div (Z.of_nat a) (Z.of_nat b) < 1)%Q as Hlt
      by (apply int_div_lt_1; lia).
    rewrite py_min_below in Hfull by lra. lra.
  - intros ->.
    assert (int_div (Z.of_nat b) (Z.of_nat b) == 1)%Q as Hone
      by (apply int_div_self; lia).
    unfold py_min. destruct (Qlt_le_dec _ _); lra.
Qed.

(** It is 0 exactly when [a = 0]. *)
Lemma capped_percent_zero (a b : nat) :
  (a ≤ b)%nat → (0 < b)%nat →
  (py_min 100 (int_div (Z.of_nat a) (Z.of_nat b) * 100) == 0)%Q ↔ a = 0%nat.
Proof.
  intros Hab Hb. split.
  - intros Hzero. destruct (decide (a = 0%nat)) as [|Hne]; [done|].
    assert (0 < int_div (Z.of_nat a) (Z.of_nat b))%Q as Hpos
      by (apply int_div_pos; lia).
    unfold py_min in Hzero. destruct (Qlt_le_dec _ _); lra.
  - intros ->. pose proof (int_div_zero (Z.of_nat b)) as Hdiv.
    change (Z.of_nat 0) with 0%Z. rewrite py_min_below; lra.
Qed.

(** ** Skills score against gaps and matches *)

Section SkillsScore.
Context `{Hstr : PyStr}.

Lemma gaps_nil_iff resume_skills required_skills :
  identify_gaps resume_skills required_skills = [] ↔
  normalized_set required_skills ⊆ normalized_set resume_skills.
Proof.
  rewrite identify_gaps_filter. split.
  - intros Hnil k Hk. apply elem_of_normalized_set in Hk as (r & Hr & <-).
    destruct (decide (normalize r ∈ normalized_set resume_skills)) as [|Hnot];
      [done|].
    by destruct (filter_nil_not_elem_of _ _ r Hnil Hnot).
  - intros Hsub. induction required_skills as [|r required IH]; [done|].
    rewrite filter_cons_False.
    + apply IH. intros k Hk. apply Hsub.
      apply elem_of_normalized_set in Hk as (s & Hs & <-).
      apply elem_of_normalized_set. exists s. split; [by right | done].
    + intros Hnot. apply Hnot, Hsub, elem_of_normalized_set.
      exists r. split; [left | done].
Qed.

Lemma matched_nil_iff resume_skills required_skills :
  _find_matched_skills resume_skills required_skills = [] ↔
  normalized_set resume_skills ∩ normalized_set required_skills = ∅.
Proof.
  rewrite _find_matched_skills_omap. split.
  - intros Hnil. apply set_eq. intros k.
    rewrite elem_of_intersection, elem_of_empty. split; [|done].
    intros [Hres Hreq]. apply elem_of_normalized_set in Hreq as (r & Hr & <-).
    apply normalized_map_is_Some in Hres as [s Hs].
    assert (s ∈ omap (λ r, normalized_map resume_skills !! normalize r)
              required_skills) as Hin
      by (apply list_elem_of_omap; by exists r).
    rewrite Hnil in Hin. by apply not_elem_of_nil in Hin.
  - intros Hempty.
    destruct (omap _ required_skills) as [|s matched] eqn:Hmatched; [done|].
    assert (s ∈ omap (λ r, normalized_map resume_skills !! normalize r)
              required_skills) as Hin
      by (rewrite Hmatched; left).
    apply list_elem_of_omap in Hin as (r & Hr & Hlook).
    assert (normalize r ∈ normalized_set resume_skills ∩
                          normalized_set required_skills) as Hboth.
    { apply elem_of_intersection. split.
      - apply normalized_map_is_Some. by exists s.
      - apply elem_of_normalized_set. by exists r. }
    rewrite Hempty in Hboth. by apply elem_of_empty in Hboth.
Qed.

Lemma intersection_full_iff (R Q : gset string) :
  size (R ∩ Q) = size Q ↔ Q ⊆ R.
Proof.
  split.
  - intros Hsize.
    assert (R ∩ Q ≡ Q) as Heq.
    { apply set_subseteq_size_equiv; [apply intersection_subseteq_r | lia]. }
    intros k Hk. apply Heq in Hk. by apply elem_of_intersection in Hk as [? _].
  - intros Hsub. f_equal. apply set_eq. intros k.
    rewrite elem_of_intersection. split; [tauto | auto].
Qed.

(** The skills score is 100 exactly when there is no skill gap. *)
Theorem skills_score_full_iff_no_gaps resume_skills required_skills :
  (_compute_skills_score resume_skills required_skills == 100)%Q ↔
  identify_gaps resume_skills required_skills = [].
Proof.
  rewrite gaps_nil_iff.
  destruct required_skills as [|r required]; [by split|].
  unfold _compute_skills_score.
  rewrite capped_percent_full.
  - apply intersection_full_iff.
  - apply subseteq_size, intersection_subseteq_r.
  - apply normalized_set_size_pos.
Qed.

(** With required skills, the skills score is 0 exactly when no skill
    matched. *)
Theorem skills_score_zero_iff_no_match resume_skills required_skills :
  required_skills ≠ [] →
  (_compute_skills_score resume_skills required_skills == 0)%Q ↔
  _find_matched_skills resume_skills required_skills = [].
Proof.
  intros Hne. rewrite matched_nil_iff.
  destruct required_skills as [|r required]; [done|].
  unfold _compute_skills_score.
  rewrite capped_percent_zero.
  - rewrite size_empty_iff. by unfold_leibniz.
  - apply subseteq_size, intersection_subseteq_r.
  - apply normalized_set_size_pos.
Qed.

(** A resume that lists more skills never scores lower on skills. *)
Theorem skills_score_monotone resume_skills resume_skills' required_skills :
  resume_skills ⊆ resume_skills' →
  (_compute_skills_score resume_skills required_skills <=
   _compute_skills_score resume_skills' required_skills)%Q.
Proof.
  intros Hsub. destruct required_skills as [|r required]; [done|].
  unfold _compute_skills_score.
  apply py_min_mono, Qmult_le_compat_r; [|done].
  apply int_div_mono.
  - apply inj_le, subseteq_size. intros k Hk.
    apply elem_of_intersection in Hk as [Hres Hreq].
    apply elem_of_intersection. split; [|done].
    apply elem_of_normalized_set in Hres as (s & Hs & <-).
    apply elem_of_normalized_set. exists s. split; [by apply Hsub | done].
  - pose proof (normalized_set_size_pos r required). lia.
Qed.
End SkillsScore.

Lemma skills_score_zero_iff_no_match_witness :
  job_required_skills Sample.python_sql_job ≠ [] ∧
  ((_compute_skills_score ["Java"] (job_required_skills Sample.python_sql_job) == 0)%Q ↔
   _find_matched_skills ["Java"] (job_required_skills Sample.python_sql_job) = []).
Proof.
  assert (job_required_skills Sample.python_sql_job ≠ []) as Hne by discriminate.
  split; [exact Hne|].
  exact (skills_score_zero_iff_no_match ["Java"] _ Hne).
Defined.

Lemma skills_score_monotone_witness :
  ["python"] ⊆ ["python"; "sql"] ∧
  (_compute_skills_score ["python"] ["Python"; "SQL"] <=
   _compute_skills_score ["python"; "sql"] ["Python"; "SQL"])%Q.
Proof.
  assert (["python"] ⊆ ["python"; "sql"]) as Hsub.
  { intros s Hs. apply list_elem_of_singleton in Hs as ->. left. }
  split; [exact Hsub|].
  exact (skills_score_monotone _ _ ["Python"; "SQL"] Hsub).
Defined.

(** ** Experience score *)

Lemma min_years_reached (total min_years : Z) :
  Qle_bool (inject_Z min_years) (int_div total 12) = true ↔
  (12 * min_years <= total)%Z.
Proof.
  rewrite Qle_bool_iff.
  unfold int_div, Qle, Qdiv, Qmult, Qinv, inject_Z. simpl. lia.
Qed.

Lemma total_months_app experience experience' :
  total_months (experience ++ experience') =
  (total_months experience + total_months experience')%Z.
Proof.
  unfold total_months. rewrite fmap_app. unfold sum_Z.
  induction (_ <$> experience) as [|d l IH]; simpl; [done|].
  rewrite IH. lia.
Qed.

Section ExperienceScore.
Context `{Hstr : PyStr}.

(** The experience score is 100 exactly when no experience is asked for
    or the months of experience cover the minimum. *)
Theorem experience_score_full_iff experience min_years :
  (_compute_experience_score experience min_years == 100)%Q ↔
  (min_years <= 0)%Z ∨ (12 * min_years <= total_months experience)%Z.
Proof.
  unfold _compute_experience_score. rewrite or_zero_Some.
  destruct (Z.leb_spec min_years 0) as [Hle|Hpos]; [by split; [left|]|].
  destruct (Qle_bool _ _) eqn:Hreached.
  - apply min_years_reached in Hreached. by split; [right|].
  - assert (¬ (12 * min_years <= total_months experience)%Z) as Hshort.
    { rewrite <- min_years_reached. congruence. }
    assert (int_div (total_months experience) 12 < inject_Z min_years)%Q as Hlt.
    { apply Qnot_le_lt. intros Hle. apply Qle_bool_iff in Hle. congruence. }
    assert (int_div (total_months experience) 12 / inject_Z min_years * 100
            < 100)%Q as Hbelow
      by (apply percent_lt; [done | by apply inject_Z_pos]).
    rewrite py_min_below by done. split; [lra | lia].
Qed.

Lemma experience_score_mono experience experience' min_years :
  (total_months experience <= total_months experience')%Z →
  (_compute_experience_score experience min_years <=
   _compute_experience_score experience' min_years)%Q.
Proof.
  intros Hle. unfold _compute_experience_score. rewrite or_zero_Some.
  destruct (Z.leb_spec min_years 0) as [|Hpos]; [done|].
  assert (0 < inject_Z min_years)%Q as Hmin by by apply inject_Z_pos.
  destruct (Qle_bool _ (int_div (total_months experience) 12)) eqn:Hreached.
  - apply min_years_reached in Hreached.
    assert (Qle_bool (inject_Z min_years) (int_div (total_months experience') 12)
            = true) as -> by (apply min_years_reached; lia).
    done.
  - destruct (Qle_bool _ (int_div (total_months experience') 12)).
    + apply py_min_le.
    + apply py_min_mono, Qmult_le_compat_r; [|done].
      apply Qmult_le_compat_r; [by apply int_div_mono|].
      by apply Qlt_le_weak, Qinv_lt_0_compat.
Qed.

(** One more experience entry, of unknown or non-negative duration, never
    lowers the experience score. *)
Theorem experience_score_monotone experience entry min_years :
  (0 <= or_zero (exp_duration_months entry))%Z →
  (_compute_experience_score experience min_years <=
   _compute_experience_score (experience ++ [entry]) min_years)%Q.
Proof.
  intros Hentry. apply experience_score_mono.
  rewrite total_months_app. unfold total_months at 3. simpl. lia.
Qed.
End ExperienceScore.

Lemma experience_score_monotone_witness :
  (0 <= or_zero (exp_duration_months (Sample.months (Some 12%Z))))%Z ∧
  (_compute_experience_score [Sample.months (Some 6%Z)] 2 <=
   _compute_experience_score
     ([Sample.months (Some 6%Z)] ++ [Sample.months (Some 12%Z)]) 2)%Q.
Proof.
  assert (0 <= or_zero (exp_duration_months (Sample.months (Some 12%Z))))%Z
    as Hentry by (simpl; lia).
  split; [exact Hentry|].
  exact (experience_score_monotone [Sample.months (Some 6%Z)] _ 2 Hentry).
Defined.

(** ** Substrings *)

Lemma prefix_app needle rest : String.prefix needle (needle +:+ rest) = true.
Proof.
  induction needle as [|c needle IH]; simpl; [by destruct rest|].
  by destruct (ascii_dec c c).
Qed.

Lemma prefix_inv needle haystack :
  String.prefix needle haystack = true → ∃ rest, haystack = needle +:+ rest.
Proof.
  revert haystack. induction needle as [|c needle IH]; intros haystack Hprefix.
  - by exists haystack.
  - destruct haystack as [|c' haystack]; [done|]. simpl in Hprefix.
    destruct (ascii_dec c c') as [<-|]; [|done].
    destruct (IH _ Hprefix) as [rest ->]. by exists rest.
Qed.

Lemma contains_inv needle haystack :
  contains needle haystack = true →
  ∃ before after, haystack = before +:+ needle +:+ after.
Proof.
  induction haystack as [|c haystack IH]; cbn [contains]; intros Hfound.
  - apply orb_true_iff in Hfound as [Hprefix|]; [|done].
    apply prefix_inv in Hprefix as [rest ->]. by exists "", rest.
  - apply orb_true_iff in Hfound as [Hprefix|Hlater].
    + apply prefix_inv in Hprefix as [rest ->]. by exists "", rest.
    + destruct (IH Hlater) as (before & after & ->).
      by exists (String c before), after.
Qed.

Lemma contains_app needle before after :
  contains needle (before +:+ needle +:+ after) = true.
Proof.
  induction before as [|c before IH].
  - change (contains needle (needle +:+ after) = true). apply contains_prefix.
  - change (String c before +:+ needle +:+ after)
      with (String c (before +:+ needle +:+ after)).
    cbn [contains]. rewrite IH. apply orb_true_r.
Qed.

Lemma string_app_assoc (a b c : string) : (a +:+ b) +:+ c = a +:+ b +:+ c.
Proof.
  induction a as [|x a IH]; [done|].
  change (String x ((a +:+ b) +:+ c) = String x (a +:+ b +:+ c)).
  by rewrite IH.
Qed.

(** A substring of a text is a substring of every extension of it. *)
Lemma contains_extend needle haystack more :
  contains needle haystack = true → contains needle (haystack +:+ more) = true.
Proof.
  intros Hfound. apply contains_inv in Hfound as (before & after & ->).
  rewrite !string_app_assoc. apply contains_app.
Qed.

Lemma join_snoc sep (first : string) parts last_part :
  join sep ((first :: parts) ++ [last_part]) =
  join sep (first :: parts) +:+ sep +:+ last_part.
Proof.
  unfold join. revert first. induction parts as [|second parts IH]; intros first.
  - done.
  - change (String.concat sep ((first :: second :: parts) ++ [last_part]))
      with (first +:+ sep +:+ String.concat sep ((second :: parts) ++ [last_part])).
    rewrite IH.
    change (String.concat sep (first :: second :: parts))
      with (first +:+ sep +:+ String.concat sep (second :: parts)).
    by rewrite !string_app_assoc.
Qed.

Lemma length_filter_full {A} (P : A → Prop) `{!∀ x, Decision (P x)} (l : list A) :
  length (filter P l) = length l ↔ Forall P l.
Proof.
  induction l as [|x l IH]; [by split|].
  rewrite filter_cons. pose proof (length_filter P l) as Hle.
  destruct (decide (P x)) as [Hx|Hx]; simpl.
  - rewrite Forall_cons. split; [intros ?; split; [done|apply IH; lia]|].
    intros [_ Hall]. f_equal. by apply IH.
  - split; [lia|]. intros Hall. by apply Forall_cons in Hall as [? _].
Qed.

Lemma length_filter_mono {A} (P Q : A → Prop)
    `{!∀ x, Decision (P x), !∀ x, Decision (Q x)} (l : list A) :
  (∀ x, P x → Q x) → (length (filter P l) ≤ length (filter Q l))%nat.
Proof.
  intros HPQ. induction l as [|x l IH]; [done|].
  rewrite !filter_cons.
  destruct (decide (P x)) as [Hx|Hx], (decide (Q x)) as [Hx'|Hx']; simpl;
    try lia.
  by destruct (Hx' (HPQ x Hx)).
Qed.

(** ** Education score *)

Section EducationScore.
Context `{Hstr : PyStr}.

Lemma education_score_count edu education req requirements :
  _compute_education_score (edu :: education) (req :: requirements) =
  py_min 100
    (int_div
       (Z.of_nat (length (filter (λ r, requirement_met
                                         (education_text (edu :: education)) r = true)
                                 (req :: requirements))))
       (Z.of_nat (length (req :: requirements))) * 100)%Q.
Proof.
  unfold _compute_education_score.
  by rewrite (foldl_count (requirement_met (education_text (edu :: education)))).
Qed.

(** The education score is 100 exactly when nothing is required, or the
    resume has education entries and every requirement phrase has a word
    that occurs in their text. *)
Theorem education_score_full_iff education requirements :
  (_compute_education_score education requirements == 100)%Q ↔
  requirements = [] ∨
  (education ≠ [] ∧
   Forall (λ req, requirement_met (education_text education) req = true)
          requirements).
Proof.
  destruct requirements as [|req requirements]; [by split; [left|]|].
  destruct education as [|edu education].
  { split; [done|]. by intros [|[? _]]. }
  rewrite education_score_count, capped_percent_full.
  - rewrite length_filter_full. split; [by right|]. by intros [|[_ ?]].
  - apply length_filter.
  - simpl. lia.
Qed.

Lemma education_text_snoc edu education entry :
  education_text ((edu :: education) ++ [entry]) =
  education_text (edu :: education) +:+ " " +:+ education_line entry.
Proof.
  unfold education_text. rewrite fmap_app.
  change (education_line <$> edu :: education)
    with (education_line edu :: (education_line <$> education)).
  apply join_snoc.
Qed.

Lemma requirement_met_extend text more req :
  requirement_met text req = true → requirement_met (text +:+ more) req = true.
Proof.
  unfold requirement_met. rewrite !existsb_exists.
  intros (word & Hword & Hfound). exists word. split; [done|].
  by apply contains_extend.
Qed.

(** One more education entry never lowers the education score. *)
Theorem education_score_monotone education entry requirements :
  (_compute_education_score education requirements <=
   _compute_education_score (education ++ [entry]) requirements)%Q.
Proof.
  destruct requirements as [|req requirements]; [by destruct education|].
  destruct education as [|edu education].
  { apply (education_score_in_range [entry] (req :: requirements)). }
  change ((edu :: education) ++ [entry]) with (edu :: (education ++ [entry])).
  rewrite !education_score_count.
  change (edu :: (education ++ [entry])) with ((edu :: education) ++ [entry]).
  apply py_min_mono, Qmult_le_compat_r; [|done].
  apply int_div_mono; [|simpl; lia].
  apply inj_le, length_filter_mono. intros r Hmet.
  rewrite education_text_snoc. by apply requirement_met_extend.
Qed.
End EducationScore.

(** ** Strengths and the overall score *)

Section Strengths.
Context `{Hstr : PyStr}.

(** [identify_strengths] gives at most three notes, and none exactly when
    no required skill matched, the experience requirement is absent or
    not reached, and no preferred skill matched. *)
Theorem strengths_empty_iff resume requirements :
  (length (identify_strengths resume requirements) ≤ 3)%nat ∧
  (identify_strengths resume requirements = [] ↔
   _find_matched_skills (resume_skills resume) (job_required_skills requirements) = [] ∧
   ¬ ((0 < job_min_experience_years requirements)%Z ∧
      (12 * job_min_experience_years requirements <=
       total_months (resume_experience resume))%Z) ∧
   _find_matched_skills (resume_skills resume) (job_preferred_skills requirements) = []).
Proof.
  unfold identify_strengths. rewrite or_zero_Some.
  set (matched := _find_matched_skills _ (job_required_skills requirements)).
  set (preferred := _find_matched_skills _ (job_preferred_skills requirements)).
  set (min_years := job_min_experience_years requirements).
  set (total := total_months (resume_experience resume)).
  assert ((0 <? min_years)%Z && Qle_bool (inject_Z min_years) (int_div total 12)
          = true ↔ (0 < min_years)%Z ∧ (12 * min_years <= total)%Z) as Hexp.
  { by rewrite andb_true_iff, Z.ltb_lt, min_years_reached. }
  destruct ((0 <? min_years)%Z && Qle_bool _ _) eqn:Hreached.
  - assert ((0 < min_years)%Z ∧ (12 * min_years <= total)%Z) as Hyes
      by by apply Hexp.
    destruct matched, preferred; (split; [simpl; lia|]);
      split; try done; by intros (_ & [] & _).
  - assert (¬ ((0 < min_years)%Z ∧ (12 * min_years <= total)%Z)) as Hno.
    { intros Hyes. apply Hexp in Hyes. congruence. }
    destruct matched, preferred; (split; [simpl; lia|]);
      split; try done; by intros (? & _ & ?).
Qed.

(** With non-negative durations, the overall score is 100 exactly when
    the three component scores are. *)
Theorem overall_score_full_iff resume requirements :
  durations_nonneg (resume_experience resume) →
  let m := match_candidate resume requirements in
  (mr_overall_score m == 100)%Q ↔
  (mr_skills_score m == 100)%Q ∧
  (mr_experience_score m == 100)%Q ∧
  (mr_education_score m == 100)%Q.
Proof.
  intros Hexp. unfold match_candidate.
  cbn [mr_overall_score mr_skills_score mr_experience_score mr_education_score].
  pose proof (skills_score_in_range (resume_skills resume)
                (job_required_skills requirements)) as [? ?].
  pose proof (experience_score_in_range _
                (job_min_experience_years requirements) Hexp) as [? ?].
  pose proof (education_score_in_range (resume_education resume)
                (job_education_requirements requirements)) as [? ?].
  unfold compute_score, SKILLS_WEIGHT, EXPERIENCE_WEIGHT, EDUCATION_WEIGHT.
  set (s := _compute_skills_score _ _) in *.
  set (e := _compute_experience_score _ _) in *.
  set (d := _compute_education_score _ _) in *.
  split; [intros ?; repeat split; lra | intros (? & ? & ?); lra].
Qed.
End Strengths.

Lemma overall_score_full_iff_witness :
  durations_nonneg (resume_experience Sample.junior) ∧
  ((mr_overall_score (match_candidate Sample.junior Sample.two_years_job) == 100)%Q ↔
   (mr_skills_score (match_candidate Sample.junior Sample.two_years_job) == 100)%Q ∧
   (mr_experience_score (match_candidate Sample.junior Sample.two_years_job) == 100)%Q ∧
   (mr_education_score (match_candidate Sample.junior Sample.two_years_job) == 100)%Q).
Proof.
  assert (durations_nonneg (resume_experience Sample.junior)) as Hexp.
  { repeat constructor. simpl. lia. }
  split; [exact Hexp|].
  exact (overall_score_full_iff Sample.junior Sample.two_years_job Hexp).
Defined.

(** * Further properties of the ranker *)

Lemma StronglySorted_lookup_lt {A} (R : A → A → Prop) (l : list A) i j x y :
  StronglySorted R l → (i < j)%nat → l !! i = Some x → l !! j = Some y → R x y.
Proof.
  intros Hsorted. revert i j.
  induction Hsorted as [|z l Hsorted IH Hall]; intros i j Hij Hi Hj; [done|].
  destruct j as [|j]; [lia|]. destruct i as [|i].
  - injection Hi as ->. rewrite Forall_forall in Hall.
    apply Hall. by eapply list_elem_of_lookup_2.
  - apply (IH i j); [lia | done..].
Qed.

Lemma key_gt_not_ge a b : key_gt a b → ¬ key_ge b a.
Proof.
  unfold key_gt, key_ge. destruct a as [qa na], b as [qb nb]. simpl.
  intros [Hlt|[Heq Hlt]] [Hlt'|[Heq' Hle]]; try lra. lia.
Qed.

Lemma key_gt_irrefl a : ¬ key_gt a a.
Proof.
  unfold key_gt. destruct a as [qa na]. simpl. intros [Hlt|[_ Hlt]]; [lra | lia].
Qed.

Section RankerOrder.
Context `{Hstr : PyStr}.
Variable explanation_model : MatchResult → nat → option string.

Lemma rank_candidates_sorted matches generate_explanations :
  StronglySorted (λ a b, key_ge (cr_sort_key a) (cr_sort_key b))
    (rank_candidates explanation_model matches generate_explanations).
Proof.
  rewrite rank_candidates_fmap.
  set (sorted_matches := sorted_reverse sort_key key_lt matches).
  eapply StronglySorted_Forall2;
    [|exact (build_carries explanation_model generate_explanations 1 sorted_matches)|].
  - intros a b a' b' Ha Hb Hab. simpl in Hab.
    rewrite (carries_sort_key _ _ Ha), (carries_sort_key _ _ Hb). exact Hab.
  - eapply StronglySorted_Forall2 with (T := eq) (l := sorted_matches).
    + intros a b a' b' -> -> Hab. apply key_lt_false, Hab.
    + clear. induction sorted_matches; by constructor.
    + apply sorted_reverse_sorted.
      * intros a b Hab. by apply key_lt_false, key_lt_true.
      * intros a b c Hab Hbc. apply key_lt_false.
        eapply key_ge_trans; by apply key_lt_false.
Qed.

Lemma rank_candidates_rank matches generate_explanations i c :
  rank_candidates explanation_model matches generate_explanations !! i = Some c →
  cr_rank c = S i.
Proof.
  intros Hc.
  assert ((cr_rank <$> rank_candidates explanation_model matches
                         generate_explanations) !! i = Some (cr_rank c)) as Hrank
    by by rewrite list_lookup_fmap, Hc.
  rewrite rank_candidates_fmap, build_ranks in Hrank.
  apply lookup_seq in Hrank as [-> _]. done.
Qed.

(** A candidate whose score is higher, or equal with more matched skills,
    gets the strictly smaller rank number. *)
Theorem better_key_ranks_first matches generate_explanations i j a b :
  rank_candidates explanation_model matches generate_explanations !! i = Some a →
  rank_candidates explanation_model matches generate_explanations !! j = Some b →
  key_gt (cr_sort_key a) (cr_sort_key b) →
  (cr_rank a < cr_rank b)%nat.
Proof.
  intros Ha Hb Hgt.
  rewrite (rank_candidates_rank _ _ _ _ Ha), (rank_candidates_rank _ _ _ _ Hb).
  destruct (decide (i < j)%nat) as [|Hge]; [lia|]. exfalso.
  destruct (decide (i = j)) as [->|Hne].
  - rewrite Ha in Hb. injection Hb as ->. by apply key_gt_irrefl in Hgt.
  - apply (key_gt_not_ge _ _ Hgt).
    apply (StronglySorted_lookup_lt _ _ j i b a
             (rank_candidates_sorted matches generate_explanations));
      [lia | done..].
Qed.

(** Neither the explanation model nor the flag changes the ranking: two
    calls on the same matches agree on every field but the explanation. *)
Theorem ranking_ignores_explanations explanation_model' matches
    generate_explanations generate_explanations' :
  Forall2 same_ranking
    (rank_candidates explanation_model matches generate_explanations)
    (rank_candidates explanation_model' matches generate_explanations').
Proof.
  rewrite !rank_candidates_fmap.
  generalize (enumerate 1 (sorted_reverse sort_key key_lt matches)).
  intros entries. induction entries as [|[rank m] entries IH]; [constructor|].
  rewrite !fmap_cons. constructor; [|done]. by repeat split.
Qed.

(** When the explanation model fails for every candidate, asking for
    explanations gives the results of the deterministic template. *)
Theorem explanations_degrade matches :
  (∀ m rank, explanation_model m rank = None) →
  rank_candidates explanation_model matches true =
  rank_candidates explanation_model matches false.
Proof.
  intros Hfails. rewrite !rank_candidates_fmap.
  apply list_fmap_ext. intros _ [rank m] _. unfold result_of, generate_explanation.
  by rewrite Hfails.
Qed.

(** The export metadata of a ranking: it counts every match, and its top
    candidate is the one ranked first, whose key no other result exceeds. *)
Theorem export_metadata_top timestamp job_summary matches generate_explanations :
  let results :=
    rank_candidates explanation_model matches generate_explanations in
  let meta := get_export_metadata timestamp results job_summary in
  meta_total_candidates meta = length matches ∧
  (matches = [] → meta_top_candidate meta = None ∧ meta_top_score meta = None) ∧
  (matches ≠ [] →
   ∃ top, results !! 0%nat = Some top ∧
          cr_rank top = 1%nat ∧
          meta_top_candidate meta = Some (cr_name top) ∧
          meta_top_score meta = Some (cr_overall_score top) ∧
          Forall (λ c, key_ge (cr_sort_key top) (cr_sort_key c) ∧
                       (cr_overall_score c <= cr_overall_score top)%Q)
                 results).
Proof.
  intros results meta. split; [apply rank_candidates_length|].
  split; [by intros ->|]. intros Hne.
  pose proof (rank_candidates_length explanation_model matches
                generate_explanations) as Hlen.
  pose proof (rank_candidates_sorted matches generate_explanations) as Hsorted.
  fold results in Hlen, Hsorted. subst meta. unfold get_export_metadata.
  destruct results as [|top rest] eqn:Hresults.
  { destruct matches; [done | simpl in Hlen; lia]. }
  exists top. split; [done|].
  split; [by apply (rank_candidates_rank matches generate_explanations 0);
          fold results; rewrite Hresults|].
  split; [done|]. split; [done|].
  apply StronglySorted_inv in Hsorted as [_ Hall].
  assert (key_ge (cr_sort_key top) (cr_sort_key top)) as Hrefl.
  { right. split; [reflexivity | lia]. }
  constructor; [split; [done | apply Qle_refl]|].
  eapply Forall_impl; [exact Hall|]. intros c Hc. split; [done|].
  destruct Hc as [Hlt|[Heq _]]; simpl in *; [by apply Qlt_le_weak | lra].
Qed.
End RankerOrder.

Lemma better_key_ranks_first_witness :
  rank_candidates Sample.offline Sample.tied_field false !! 1%nat
  = Some (result_of Sample.offline false (2%nat, Sample.scored "Gus" 50 ["SQL"; "Go"] [])) ∧
  rank_candidates Sample.offline Sample.tied_field false !! 2%nat
  = Some (result_of Sample.offline false (3%nat, Sample.scored "Dee" 50 ["SQL"] ["Go"])) ∧
  (2 < 3)%nat.
Proof.
  split; [reflexivity|]. split; [reflexivity|].
  apply (better_key_ranks_first Sample.offline Sample.tied_field false 1 2
           (result_of Sample.offline false
              (2%nat, Sample.scored "Gus" 50 ["SQL"; "Go"] []))
           (result_of Sample.offline false
              (3%nat, Sample.scored "Dee" 50 ["SQL"] ["Go"]))
           eq_refl eq_refl).
  right. split; [reflexivity | simpl; lia].
Defined.

Lemma explanations_degrade_witness :
  (∀ m rank, Sample.offline m rank = None) ∧
  rank_candidates Sample.offline Sample.tied_field true =
  rank_candidates Sample.offline Sample.tied_field false.
Proof.
  assert (∀ m rank, Sample.offline m rank = None) as Hfails by done.
  split; [exact Hfails|].
  exact (explanations_degrade Sample.offline Sample.tied_field Hfails).
Defined.

(** * Further properties of the runner *)

(** ** Invariants along a run *)

Section RunInvariants.
Context `{Hstr : PyStr}.
Variable now : nat → Q.
Variable on_status_update : bool.
Variable start_time : Q.

Local Abbreviation emit' := (emit now on_status_update).

Lemma parse_loop_inv {Input} (parse : nat → Input → agent_result ResumeData)
    (Inv : RunnerState → Prop) total i inputs parsed errors st :
  (i + length inputs ≤ total)%nat →
  (∀ k st, (k < total)%nat → Inv st →
           Inv (emit' "Parser" k total start_time None false st)) →
  Inv st →
  Inv (parse_loop now parse on_status_update start_time total i inputs parsed
         errors st).2.
Proof.
  intros Hle Hstep. revert i parsed errors st Hle.
  induction inputs as [|input rest IH]; intros i parsed errors st Hle Hst; [done|].
  simpl in Hle. cbn [parse_loop]. destruct (parse i input) as [resume_data error].
  assert (Inv (emit' "Parser" i total start_time None false st)) as Hnext
    by (apply Hstep; [lia | done]).
  destruct (truthy error); apply IH; (lia || done).
Qed.

Lemma match_loop_inv self (Inv : RunnerState → Prop) job total i resumes
    matches errors st :
  (i + length resumes ≤ total)%nat →
  (∀ k st, (k < total)%nat → Inv st →
           Inv (emit' "Matcher" k total start_time None false st)) →
  Inv st →
  Inv (match_loop now self on_status_update start_time job total i resumes
         matches errors st).2.
Proof.
  intros Hle Hstep. revert i matches errors st Hle.
  induction resumes as [|resume rest IH]; intros i matches errors st Hle Hst;
    [done|].
  simpl in Hle. cbn [match_loop].
  assert (Inv (emit' "Matcher" i total start_time None false st)) as Hnext
    by (apply Hstep; [lia | done]).
  destruct (matcher_match_candidate self resume job) as [e|match_result];
    [destruct resume as [r|]|]; try (apply IH; (lia || done)).
  done.
Qed.
End RunInvariants.

Section RunStages.
Context `{Hstr : PyStr}.
Variable now : nat → Q.

(** A family of invariants [J k] ("the run is at most at stage [k]") that
    is monotone in [k] and carried forward by each emission of stage [k]
    holds, at the last stage, at the end of every run. *)
Lemma run_stage_inv {Input} self (parse : nat → Input → agent_result ResumeData)
    inputs job_description on_status_update generate_explanations st
    (J : nat → RunnerState → Prop) :
  let start_time := now (st_clock st) in
  (∀ k k' st', (k ≤ k')%nat → J k st' → J k' st') →
  (∀ k agent processed total error is_complete st',
     stage_of agent = k → (k ≤ 4)%nat → (processed ≤ total)%nat →
     (is_complete = true ↔ k = 4%nat) →
     J k st' →
     J k (emit now on_status_update agent processed total start_time error
            is_complete st')) →
  J 0%nat (emit now on_status_update "Analyzer" 0 (length inputs) start_time None
             false (read_clock now st).2) →
  J 4%nat (run now self parse inputs job_description on_status_update
             generate_explanations st).2.
Proof.
  intros start_time Hmono Hstep Hbase. unfold run. cbn [read_clock].
  fold start_time. cbn [read_clock snd] in Hbase.
  set (st1 := emit now on_status_update "Analyzer" 0 (length inputs) start_time
                None false _) in *.
  assert (∀ k agent processed total error st',
            stage_of agent = k → (k ≤ 3)%nat → (processed ≤ total)%nat →
            J k st' →
            J k (emit now on_status_update agent processed total start_time error
                   false st')) as Hopen.
  { intros k agent processed total error st' Hagent Hk Hle Hst'.
    apply Hstep; [done | lia | done | split; [done | lia] | done]. }
  destruct (analyzer_analyze_job_description self job_description) as [job error].
  destruct (truthy error).
  { cbn [snd]. apply (Hmono 0%nat); [lia|]. apply Hopen; [done | lia | lia | done]. }
  assert (J 1%nat (parse_loop now parse on_status_update start_time (length inputs)
                     0 inputs [] [] st1).2) as Hparsed.
  { apply parse_loop_inv; [done | |apply (Hmono 0%nat); [lia | done]].
    intros k st' Hk Hst'. apply Hopen; [done | lia | lia | done]. }
  destruct (parse_loop now parse on_status_update start_time (length inputs)
              0 inputs [] [] st1) as [[parsed errors] st2].
  cbn [snd] in Hparsed.
  destruct parsed as [|resume parsed].
  { cbn [snd]. apply (Hmono 1%nat); [lia|]. apply Hopen; [done | lia | lia | done]. }
  set (resumes := resume :: parsed).
  assert (J 2%nat (match_loop now self on_status_update start_time job
                     (length resumes) 0 resumes [] errors st2).2) as Hmatched.
  { apply match_loop_inv; [done | |apply (Hmono 1%nat); [lia | done]].
    intros k st' Hk Hst'. apply Hopen; [done | lia | lia | done]. }
  destruct (match_loop now self on_status_update start_time job (length resumes)
              0 resumes [] errors st2) as [[e|[matches errors']] st3].
  { cbn [snd] in *. apply (Hmono 2%nat); [lia | done]. }
  cbn [snd] in Hmatched.
  destruct matches as [|m matches].
  { cbn [snd]. apply (Hmono 2%nat); [lia|]. apply Hopen; [done | lia | lia | done]. }
  assert (J 3%nat (emit now on_status_update "Ranker" 0 (length (m :: matches))
                     start_time None false st3)) as Hranker.
  { apply Hopen; [done | lia.. |]. apply (Hmono 2%nat); [lia | done]. }
  destruct (match ranker_rank_candidates self (m :: matches) generate_explanations
            with
            | inr results => inr results
            | inl _ => ranker_rank_candidates self (m :: matches) false
            end) as [e|results].
  { cbn [snd]. apply (Hmono 3%nat); [lia | done]. }
  cbn [snd]. apply Hstep; [done | lia | lia | done |].
  apply (Hmono 3%nat); [lia | done].
Qed.
End RunStages.

Lemma StronglySorted_snoc {A} (R : A → A → Prop) (l : list A) (x : A) :
  StronglySorted R l → Forall (λ y, R y x) l → StronglySorted R (l ++ [x]).
Proof.
  induction 1 as [|y l Hsorted IH Hy]; intros Hall; simpl.
  - repeat constructor.
  - apply Forall_cons in Hall as [Hyx Hall].
    constructor; [by apply IH|]. apply Forall_app. split; [done|].
    by constructor.
Qed.

Lemma lookup_snoc_Some {A} (l : list A) (x y : A) i :
  (l ++ [x]) !! i = Some y →
  l !! i = Some y ∨ (i = length l ∧ y = x).
Proof.
  intros Hlook. apply lookup_app_Some in Hlook as [?|[Hge Hlast]]; [by left|].
  right. apply list_lookup_singleton_Some in Hlast as [Hzero ->].
  split; [lia | done].
Qed.

Lemma stage_of_complete agent : stage_of agent = 4%nat ↔ agent = "Complete".
Proof.
  unfold stage_of.
  destruct (String.eqb_spec agent "Analyzer") as [->|]; [by split|].
  destruct (String.eqb_spec agent "Parser") as [->|]; [by split|].
  destruct (String.eqb_spec agent "Matcher") as [->|]; [by split|].
  destruct (String.eqb_spec agent "Ranker") as [->|]; [by split|].
  destruct (String.eqb_spec agent "Complete") as [->|]; by split.
Qed.

Section RunnerStatus.
Context `{Hstr : PyStr}.
Variable now : nat → Q.

Lemma run_status_is_last {Input} self
    (parse : nat → Input → agent_result ResumeData)
    inputs job_description generate_explanations st :
  let st' := (run now self parse inputs job_description true
                generate_explanations st).2 in
  ∃ latest, get_status st' = Some latest ∧ last (st_seen st') = Some latest.
Proof.
  apply (run_stage_inv now self parse inputs job_description true
           generate_explanations st
           (λ _ st', ∃ latest, get_status st' = Some latest ∧
                               last (st_seen st') = Some latest)).
  - done.
  - intros k agent processed total error is_complete st' _ _ _ _ _.
    eexists. split; [reflexivity|]. rewrite st_seen_emit. apply last_snoc.
  - eexists. split; [reflexivity|]. rewrite st_seen_emit. apply last_snoc.
Qed.

(** After a run with a callback, [get_status] is the snapshot that the
    callback received last. *)
Theorem status_is_last_snapshot self pdf_files resume_texts job_description
    generate_explanations st :
  (∃ latest,
     get_status (process now self pdf_files job_description true
                   generate_explanations st).2 = Some latest ∧
     last (st_seen (process now self pdf_files job_description true
                      generate_explanations st).2) = Some latest) ∧
  (∃ latest,
     get_status (process_from_text now self resume_texts job_description true
                   generate_explanations st).2 = Some latest ∧
     last (st_seen (process_from_text now self resume_texts job_description true
                      generate_explanations st).2) = Some latest).
Proof. split; apply run_status_is_last. Qed.

Lemma run_stages_in_order {Input} self
    (parse : nat → Input → agent_result ResumeData)
    inputs job_description generate_explanations st :
  ∃ emitted,
    st_seen (run now self parse inputs job_description true
               generate_explanations st).2 = st_seen st ++ emitted ∧
    StronglySorted stage_le emitted ∧
    Forall (λ s, (stage_of (ps_current_agent s) ≤ 4)%nat ∧
                 (ps_is_complete s = true ↔ ps_current_agent s = "Complete"))
           emitted.
Proof.
  pose proof (run_stage_inv now self parse inputs job_description true
                generate_explanations st
                (λ k st', ∃ emitted,
                   st_seen st' = st_seen st ++ emitted ∧
                   StronglySorted stage_le emitted ∧
                   Forall (λ s, (stage_of (ps_current_agent s) ≤ k)%nat ∧
                                (stage_of (ps_current_agent s) ≤ 4)%nat ∧
                                (ps_is_complete s = true ↔
                                 ps_current_agent s = "Complete"))
                          emitted)) as Hrun.
  destruct Hrun as (emitted & Hseen & Hsorted & Hall).
  - intros k k' st' Hk (emitted & Hseen & Hsorted & Hall).
    exists emitted. split; [done|]. split; [done|].
    eapply Forall_impl; [done|]. intros s (? & ? & ?). split; [lia | done].
  - intros k agent processed total error is_complete st' Hagent Hk _ Hcomplete
           (emitted & Hseen & Hsorted & Hall).
    eexists. rewrite st_seen_emit, Hseen, <- app_assoc. split; [done|].
    split.
    + apply StronglySorted_snoc; [done|].
      eapply Forall_impl; [done|]. intros s (Hs & _). unfold stage_le. simpl.
      by rewrite Hagent.
    + apply Forall_app. split; [done|]. constructor; [|done]. simpl.
      rewrite Hagent. split; [done|]. split; [done|].
      rewrite Hcomplete, <- Hagent. apply stage_of_complete.
  - eexists. rewrite st_seen_emit. split; [done|].
    split; [repeat constructor|]. by repeat constructor.
  - exists emitted. split; [done|]. split; [done|].
    eapply Forall_impl; [done|]. by intros s (_ & ? & ?).
Qed.

(** The snapshots of a run come in pipeline order, Analyzer, Parser,
    Matcher, Ranker, Complete, with no return to an earlier stage, and a
    snapshot is complete exactly when it is the "Complete" one. *)
Theorem stages_in_order self pdf_files resume_texts job_description
    generate_explanations st :
  (∃ emitted,
     st_seen (process now self pdf_files job_description true
                generate_explanations st).2 = st_seen st ++ emitted ∧
     StronglySorted stage_le emitted ∧
     Forall (λ s, (stage_of (ps_current_agent s) ≤ 4)%nat ∧
                  (ps_is_complete s = true ↔ ps_current_agent s = "Complete"))
            emitted) ∧
  (∃ emitted,
     st_seen (process_from_text now self resume_texts job_description true
                generate_explanations st).2 = st_seen st ++ emitted ∧
     StronglySorted stage_le emitted ∧
     Forall (λ s, (stage_of (ps_current_agent s) ≤ 4)%nat ∧
                  (ps_is_complete s = true ↔ ps_current_agent s = "Complete"))
            emitted).
Proof. split; apply run_stages_in_order. Qed.
End RunnerStatus.

Lemma StronglySorted_by_index {A} (R : A → A → Prop) (l : list A) :
  (∀ i j x y, (i < j)%nat → l !! i = Some x → l !! j = Some y → R x y) →
  StronglySorted R l.
Proof.
  induction l as [|x l IH]; intros Hordered; constructor.
  - apply IH. intros i j y z Hij Hy Hz. by apply (Hordered (S i) (S j)); [lia|..].
  - apply Forall_forall. intros y Hy.
    apply list_elem_of_lookup_1 in Hy as [j Hj].
    by apply (Hordered 0%nat (S j)); [lia|..].
Qed.

Section RunnerTiming.
Context `{Hstr : PyStr}.
Variable now : nat → Q.

Lemma run_timing {Input} self (parse : nat → Input → agent_result ResumeData)
    inputs job_description generate_explanations st :
  timed_from now st (run now self parse inputs job_description true
                       generate_explanations st).2.
Proof.
  apply (run_stage_inv now self parse inputs job_description true
           generate_explanations st (λ _ st', timed_from now st st')).
  - done.
  - intros k agent processed total error is_complete st' _ _ _ _
           (emitted & Hseen & Hclock & Htimes).
    eexists. rewrite st_seen_emit, Hseen, <- app_assoc.
    split; [done|]. split.
    + rewrite length_app. simpl. rewrite Hclock. lia.
    + intros i s Hs. apply lookup_snoc_Some in Hs as [Hs|[-> ->]];
        [by apply Htimes|].
      simpl. by rewrite Hclock.
  - eexists. rewrite st_seen_emit. split; [done|]. split; [simpl; lia|].
    intros i s Hs. apply list_lookup_singleton_Some in Hs as [-> <-].
    simpl. by rewrite Nat.add_0_r.
Qed.

(** Every snapshot of a run carries the start time read when the run
    began, and its elapsed time is the clock reading taken for that
    snapshot minus the start time; the clock is read once at the start and
    once per snapshot. *)
Theorem snapshot_timing self pdf_files resume_texts job_description
    generate_explanations st :
  timed_from now st (process now self pdf_files job_description true
                       generate_explanations st).2 ∧
  timed_from now st (process_from_text now self resume_texts job_description true
                       generate_explanations st).2.
Proof. split; apply run_timing. Qed.

(** Under a clock that never goes back, the elapsed times of the snapshots
    of a run are non-negative and never decrease. *)
Theorem elapsed_never_decreases self pdf_files job_description
    generate_explanations st :
  monotone_clock now →
  ∃ emitted,
    st_seen (process now self pdf_files job_description true
               generate_explanations st).2 = st_seen st ++ emitted ∧
    Forall (λ s, (0 <= ps_elapsed_seconds s)%Q) emitted ∧
    StronglySorted (λ a b, (ps_elapsed_seconds a <= ps_elapsed_seconds b)%Q)
                   emitted.
Proof.
  intros Hclock.
  destruct (run_timing self (parser_parse_resume self) pdf_files job_description
              generate_explanations st) as (emitted & Hseen & _ & Htimes).
  exists emitted. split; [done|]. split.
  - apply Forall_forall. intros s Hs.
    apply list_elem_of_lookup_1 in Hs as [i Hi].
    destruct (Htimes i s Hi) as [_ ->].
    pose proof (Hclock (st_clock st) (S (st_clock st) + i)%nat ltac:(lia)). lra.
  - apply StronglySorted_by_index. intros i j a b Hij Ha Hb.
    destruct (Htimes i a Ha) as [_ ->]. destruct (Htimes j b Hb) as [_ ->].
    pose proof (Hclock (S (st_clock st) + i)%nat (S (st_clock st) + j)%nat
                  ltac:(lia)). lra.
Qed.
End RunnerTiming.

Lemma ticking_monotone : monotone_clock Sample.ticking.
Proof.
  intros n m Hnm. unfold Sample.ticking. rewrite <- Zle_Qle. lia.
Defined.

Lemma elapsed_never_decreases_witness :
  monotone_clock Sample.ticking ∧
  ∃ emitted,
    st_seen (process Sample.ticking
               (new_runner Sample.second_unreadable Sample.no_text Sample.analyzed
                           Sample.offline)
               [Sample.pdf; Sample.pdf; Sample.pdf] "Engineer wanted" true false
               initial_state).2 = st_seen initial_state ++ emitted ∧
    Forall (λ s, (0 <= ps_elapsed_seconds s)%Q) emitted ∧
    StronglySorted (λ a b, (ps_elapsed_seconds a <= ps_elapsed_seconds b)%Q)
                   emitted.
Proof.
  split; [exact ticking_monotone|].
  exact (elapsed_never_decreases Sample.ticking
           (new_runner Sample.second_unreadable Sample.no_text Sample.analyzed
                       Sample.offline)
           [Sample.pdf; Sample.pdf; Sample.pdf] "Engineer wanted" false
           initial_state ticking_monotone).
Defined.

(** ** What the parser and matcher stages hand on *)

Section Stages.
Context `{Hstr : PyStr}.
Variable now : nat → Q.
Variable on_status_update : bool.
Variable start_time : Q.

Lemma parse_loop_result {Input} (parse : nat → Input → agent_result ResumeData)
    total i inputs parsed errors st :
  (parse_loop now parse on_status_update start_time total i inputs parsed errors
              st).1 =
  (parsed ++ parsed_resumes_of (imap (λ k input, ((i + k)%nat, parse (i + k)%nat input))
                                     inputs),
   errors ++ parse_errors_of (imap (λ k input, ((i + k)%nat, parse (i + k)%nat input))
                                   inputs)).
Proof.
  revert i parsed errors st.
  induction inputs as [|input rest IH]; intros i parsed errors st.
  - unfold parsed_resumes_of, parse_errors_of. simpl. by rewrite !app_nil_r.
  - cbn [parse_loop]. rewrite imap_cons, Nat.add_0_r.
    assert (imap ((λ k input, ((i + k)%nat, parse (i + k)%nat input)) ∘ S) rest =
            imap (λ k input, ((S i + k)%nat, parse (S i + k)%nat input)) rest)
      as -> by (apply imap_ext; intros k input' _; unfold compose;
                by replace (i + S k)%nat with (S i + k)%nat by lia).
    destruct (parse i input) as [resume_data error] eqn:Hparse.
    unfold parsed_resumes_of, parse_errors_of.
    destruct (truthy error) eqn:Herror; rewrite IH.
    + rewrite (filter_cons_False (λ o, ¬ parse_failed o))
        by (unfold parse_failed; simpl; by rewrite Herror; intros []).
      rewrite (filter_cons_True parse_failed) by done.
      rewrite fmap_cons. cbn [fst snd]. by rewrite <- app_assoc.
    + rewrite (filter_cons_True (λ o, ¬ parse_failed o))
        by (unfold parse_failed; simpl; by rewrite Herror).
      rewrite (filter_cons_False parse_failed)
        by (unfold parse_failed; simpl; by rewrite Herror).
      rewrite fmap_cons. cbn [fst snd]. by rewrite <- app_assoc.
Qed.

Lemma parse_loop_outcomes {Input} (parse : nat → Input → agent_result ResumeData)
    total inputs st :
  (parse_loop now parse on_status_update start_time total 0 inputs [] [] st).1 =
  (parsed_resumes_of (parse_outcomes parse inputs),
   parse_errors_of (parse_outcomes parse inputs)).
Proof. by rewrite parse_loop_result. Qed.

(** The repository's matcher never raises on a resume and a job. *)
Lemma match_loop_agent self job total i resumes matches errors st :
  matcher_match_candidate self = matcher_agent →
  (match_loop now self on_status_update start_time (Some job) total i
              (Some <$> resumes) matches errors st).1 =
  inr (matches ++ ((λ r, match_candidate r job) <$> resumes), errors).
Proof.
  intros Hmatcher. revert i matches st.
  induction resumes as [|r resumes IH]; intros i matches st.
  - simpl. by rewrite app_nil_r.
  - rewrite fmap_cons. cbn [match_loop]. rewrite Hmatcher. cbn [matcher_agent].
    rewrite IH, fmap_cons. by rewrite <- app_assoc.
Qed.

(** A matcher that raises for every resume leaves one entry each. *)
Lemma match_loop_all_raise self job total i resumes matches errors st :
  Forall (λ r, ∃ e, matcher_match_candidate self (Some r) job = inl e) resumes →
  ∃ errors',
    (match_loop now self on_status_update start_time job total i
                (Some <$> resumes) matches errors st).1 = inr (matches, errors').
Proof.
  intros Hraise. revert i errors st.
  induction Hraise as [|r resumes [e He] _ IH]; intros i errors st.
  - by eexists.
  - rewrite fmap_cons. cbn [match_loop]. rewrite He. apply IH.
Qed.
End Stages.

(** ** Terminal errors and partial failures *)

Section RunnerOutcomes.
Context `{Hstr : PyStr}.
Variable now : nat → Q.

(** When the analyzer reports an error, [process] stops there: it returns
    no results and "Failed to analyze job description: " followed by the
    error, after two Analyzer snapshots, the second carrying the error;
    the parser is not consulted. *)
Theorem analysis_failure self pdf_files job_description generate_explanations st
    job error :
  analyzer_analyze_job_description self job_description = (job, error) →
  truthy error = true →
  ∃ started failed st',
    process now self pdf_files job_description true generate_explanations st =
    (Returned [] (Some ("Failed to analyze job description: " +:+ or_empty error)),
     st') ∧
    st_seen st' = st_seen st ++ [started; failed] ∧
    ps_current_agent started = "Analyzer" ∧ ps_error_message started = None ∧
    ps_current_agent failed = "Analyzer" ∧ ps_error_message failed = error ∧
    ps_processed_count failed = 0%nat ∧
    ps_total_count failed = length pdf_files ∧
    ps_is_complete failed = false.
Proof.
  intros Hanalyzed Herror. unfold process, run. cbn [read_clock].
  rewrite Hanalyzed, Herror.
  eexists _, _, _. split; [reflexivity|].
  rewrite !st_seen_emit, <- app_assoc. by repeat split.
Qed.

(** When every candidate that parsed makes the matcher raise, [process]
    returns no results and "No candidates could be matched". *)
Theorem no_candidate_matched self pdf_files job_description generate_explanations
    on_status_update st job job_error resumes :
  analyzer_analyze_job_description self job_description = (job, job_error) →
  truthy job_error = false →
  parsed_resumes_of (parse_outcomes (parser_parse_resume self) pdf_files)
  = Some <$> resumes →
  resumes ≠ [] →
  Forall (λ r, ∃ e, matcher_match_candidate self (Some r) job = inl e) resumes →
  (process now self pdf_files job_description on_status_update
           generate_explanations st).1
  = Returned [] (Some "No candidates could be matched").
Proof.
  intros Hanalyzed Hjob_error Hparsed Hne Hraise. unfold process, run.
  cbn [read_clock]. rewrite Hanalyzed, Hjob_error.
  match goal with
  | |- context [parse_loop now ?p ?on ?start ?total 0%nat pdf_files [] [] ?st0] =>
      pose proof (parse_loop_outcomes now on start p total pdf_files st0) as Hloop;
      destruct (parse_loop now p on start total 0%nat pdf_files [] [] st0)
        as [[parsed errors] st2]
  end.
  cbn [fst] in Hloop. injection Hloop as -> ->. rewrite Hparsed.
  destruct resumes as [|r resumes]; [done|]. rewrite fmap_cons.
  rewrite <- (fmap_cons Some r resumes).
  match goal with
  | |- context [match_loop now self ?on ?start job ?total 0%nat ?rs [] ?errs ?st0] =>
      destruct (match_loop_all_raise now on start self job total 0%nat
                  (r :: resumes) [] errs st0 Hraise) as [errors' Hmatched];
      destruct (match_loop now self on start job total 0%nat rs [] errs st0)
        as [matched st3]
  end.
  cbn [fst] in Hmatched. by subst matched.
Qed.

(** The runner as [__init__] wires it, on a batch where some candidates
    fail to parse: it returns the ranking of the matches of the candidates
    that parsed, one result for each, and the joined entries of those that
    did not. *)
Theorem process_partial_failures
    parse_resume parse_resume_from_text analyze_job_description explanation_model
    pdf_files job_description on_status_update generate_explanations st
    job job_error resumes :
  analyze_job_description job_description = (Some job, job_error) →
  truthy job_error = false →
  parsed_resumes_of (parse_outcomes parse_resume pdf_files) = Some <$> resumes →
  resumes ≠ [] →
  let self := new_runner parse_resume parse_resume_from_text
                analyze_job_description explanation_model in
  let results :=
    rank_candidates explanation_model ((λ r, match_candidate r job) <$> resumes)
                    generate_explanations in
  (process now self pdf_files job_description on_status_update
           generate_explanations st).1
  = Returned results
      (error_summary (parse_errors_of (parse_outcomes parse_resume pdf_files))) ∧
  length results = length resumes.
Proof.
  intros Hanalyzed Hjob_error Hparsed Hne self results.
  split; [|by unfold results; rewrite rank_candidates_length, length_fmap].
  unfold process, run. cbn [read_clock].
  cbn [self new_runner analyzer_analyze_job_description parser_parse_resume].
  rewrite Hanalyzed, Hjob_error.
  match goal with
  | |- context [parse_loop now ?p ?on ?start ?total 0%nat pdf_files [] [] ?st0] =>
      pose proof (parse_loop_outcomes now on start p total pdf_files st0) as Hloop;
      destruct (parse_loop now p on start total 0%nat pdf_files [] [] st0)
        as [[parsed errors] st2]
  end.
  cbn [fst] in Hloop. injection Hloop as -> ->. rewrite Hparsed.
  destruct resumes as [|r resumes]; [done|]. rewrite fmap_cons.
  rewrite <- (fmap_cons Some r resumes).
  match goal with
  | |- context [match_loop now ?s ?on ?start (Some job) ?total 0%nat ?rs [] ?errs ?st0] =>
      pose proof (match_loop_agent now on start s job total 0%nat (r :: resumes)
                    [] errs st0 eq_refl) as Hmatched;
      destruct (match_loop now s on start (Some job) total 0%nat rs [] errs st0)
        as [matched st3]
  end.
  cbn [fst] in Hmatched. subst matched. rewrite app_nil_l, fmap_cons.
  unfold self. cbn [new_runner ranker_rank_candidates ranker_agent fst]. done.
Qed.
End RunnerOutcomes.

Lemma analysis_failure_witness :
  Sample.rejecting "" = (None, Some "Empty job description") ∧
  ∃ st',
    process Sample.ticking
      (new_runner Sample.second_unreadable Sample.no_text Sample.rejecting
                  Sample.offline)
      [Sample.pdf] "" true false initial_state
    = (Returned []
         (Some "Failed to analyze job description: Empty job description"), st').
Proof.
  split; [reflexivity|].
  destruct (analysis_failure Sample.ticking
              (new_runner Sample.second_unreadable Sample.no_text Sample.rejecting
                          Sample.offline)
              [Sample.pdf] "" false initial_state
              None (Some "Empty job description") eq_refl eq_refl)
    as (started & failed & st' & Hrun & _).
  exists st'. exact Hrun.
Defined.

Lemma no_candidate_matched_witness :
  parsed_resumes_of
    (parse_outcomes (parser_parse_resume Sample.runner_without_matcher)
                    [Sample.pdf; Sample.pdf; Sample.pdf])
  = Some <$> [Sample.python_resume; Sample.junior] ∧
  (process Sample.ticking Sample.runner_without_matcher
           [Sample.pdf; Sample.pdf; Sample.pdf] "Engineer wanted" true false
           initial_state).1
  = Returned [] (Some "No candidates could be matched").
Proof.
  split; [reflexivity|].
  apply (no_candidate_matched Sample.ticking Sample.runner_without_matcher
           [Sample.pdf; Sample.pdf; Sample.pdf] "Engineer wanted" false true
           initial_state (Some Sample.python_sql_job) None
           [Sample.python_resume; Sample.junior] eq_refl eq_refl eq_refl).
  - discriminate.
  - repeat constructor; by eexists.
Defined.

Lemma process_partial_failures_witness :
  parsed_resumes_of
    (parse_outcomes Sample.second_unreadable [Sample.pdf; Sample.pdf; Sample.pdf])
  = Some <$> [Sample.python_resume; Sample.junior] ∧
  (process Sample.ticking
     (new_runner Sample.second_unreadable Sample.no_text Sample.analyzed
                 Sample.offline)
     [Sample.pdf; Sample.pdf; Sample.pdf] "Engineer wanted" true false
     initial_state).1
  = Returned
      (rank_candidates Sample.offline
         ((λ r, match_candidate r Sample.python_sql_job)
            <$> [Sample.python_resume; Sample.junior]) false)
      (error_summary
         (parse_errors_of
            (parse_outcomes Sample.second_unreadable
                            [Sample.pdf; Sample.pdf; Sample.pdf]))).
Proof.
  split; [reflexivity|].
  apply (process_partial_failures Sample.ticking
           Sample.second_unreadable Sample.no_text Sample.analyzed Sample.offline
           [Sample.pdf; Sample.pdf; Sample.pdf] "Engineer wanted" true false
           initial_state Sample.python_sql_job None
           [Sample.python_resume; Sample.junior] eq_refl eq_refl eq_refl).
  discriminate.
Defined.

Lemma export_metadata_top_witness :
  Sample.tied_field ≠ [] ∧
  meta_top_candidate
    (get_export_metadata "2024-01-01T00:00:00"
       (rank_candidates Sample.offline Sample.tied_field false) "Engineer")
  = Some "Eve".
Proof.
  assert (Sample.tied_field ≠ []) as Hne by discriminate.
  split; [exact Hne|].
  destruct (export_metadata_top Sample.offline "2024-01-01T00:00:00" "Engineer"
              Sample.tied_field false) as (_ & _ & Htop).
  destruct (Htop Hne) as (top & Hfirst & _ & Hname & _).
  rewrite Hname. vm_compute in Hfirst. by injection Hfirst as <-.
Defined.

(** ** Input validation *)

Lemma bytes_startswith_app prefix rest : bytes_startswith (prefix ++ rest) prefix = true.
Proof.
  induction prefix as [|p prefix IH]; [done|]. simpl.
  rewrite IH, andb_true_r. by destruct p.
Qed.

Lemma bytes_startswith_inv data prefix :
  bytes_startswith data prefix = true → ∃ rest, data = prefix ++ rest.
Proof.
  revert data. induction prefix as [|p prefix IH]; intros data Hstarts.
  - by exists data.
  - destruct data as [|d data]; [done|]. simpl in Hstarts.
    apply andb_true_iff in Hstarts as [Hhead Hrest].
    apply Byte.byte_dec_bl in Hhead as ->.
    destruct (IH _ Hrest) as [rest ->]. by exists rest.
Qed.

Lemma invalid_positions_elem i files invalid_files p :
  p ∈ invalid_positions i files invalid_files ↔
  p ∈ invalid_files ∨
  ∃ k file_bytes, files !! k = Some file_bytes ∧ is_pdf file_bytes = false ∧
                  p = (i + Z.of_nat k + 1)%Z.
Proof.
  revert i invalid_files.
  induction files as [|file_bytes rest IH]; intros i invalid_files.
  - simpl. split; [by left|]. by intros [?|(k & ? & ? & _)].
  - cbn [invalid_positions]. rewrite IH. split.
    + intros [Hp|(k & f & Hk & Hf & ->)].
      * destruct (is_pdf file_bytes) eqn:Hpdf; [by left|].
        apply elem_of_app in Hp as [Hp|Hp]; [by left|].
        apply list_elem_of_singleton in Hp as ->.
        right. exists 0%nat, file_bytes. repeat split; [done|lia].
      * right. exists (S k), f. repeat split; [done..|lia].
    + intros [Hp|(k & f & Hk & Hf & ->)].
      * left. destruct (is_pdf file_bytes); [done|].
        apply elem_of_app. by left.
      * destruct k as [|k].
        -- injection Hk as ->. rewrite Hf. left.
           apply elem_of_app. right. apply list_elem_of_singleton. lia.
        -- right. exists k, f. repeat split; [done..|lia].
Qed.

Lemma invalid_positions_sorted i files invalid_files :
  StronglySorted Z.lt invalid_files →
  Forall (λ p, (p ≤ i)%Z) invalid_files →
  StronglySorted Z.lt (invalid_positions i files invalid_files).
Proof.
  revert i invalid_files.
  induction files as [|file_bytes rest IH]; intros i invalid_files Hsorted Hbelow;
    [done|].
  cbn [invalid_positions]. apply IH.
  - destruct (is_pdf file_bytes); [done|].
    apply StronglySorted_snoc; [done|].
    eapply Forall_impl; [exact Hbelow|]. simpl. lia.
  - destruct (is_pdf file_bytes).
    + eapply Forall_impl; [exact Hbelow|]. simpl. lia.
    + apply Forall_app. split.
      * eapply Forall_impl; [exact Hbelow|]. simpl. lia.
      * constructor; [lia|constructor].
Qed.

Lemma invalid_positions_nil_iff files :
  invalid_positions 0 files [] = [] ↔ Forall (λ f, is_pdf f = true) files.
Proof.
  split.
  - intros Hnone. apply Forall_lookup. intros k f Hk.
    destruct (is_pdf f) eqn:Hf; [done|].
    assert ((0 + Z.of_nat k + 1)%Z ∈ invalid_positions 0 files []) as Hin.
    { apply invalid_positions_elem. right. by exists k, f. }
    rewrite Hnone in Hin. by apply elem_of_nil in Hin.
  - intros Hall.
    destruct (invalid_positions 0 files []) as [|p ps] eqn:Hpositions; [done|].
    assert (p ∈ invalid_positions 0 files []) as Hin
      by (rewrite Hpositions; apply list_elem_of_here).
    apply invalid_positions_elem in Hin as [Hin|(k & f & Hk & Hf & _)].
    + by apply elem_of_nil in Hin.
    + rewrite Forall_lookup in Hall. specialize (Hall k f Hk). congruence.
Qed.

(** A file is taken for a PDF exactly when it begins with the four bytes
    [%PDF]; nothing after them is looked at. *)
Theorem is_pdf_magic file_bytes :
  is_pdf file_bytes = true ↔ ∃ rest, file_bytes = PDF_MAGIC ++ rest.
Proof.
  split.
  - destruct file_bytes as [|b file_bytes]; [done|].
    unfold is_pdf. apply bytes_startswith_inv.
  - intros [rest ->]. unfold is_pdf.
    change (PDF_MAGIC ++ rest) with (Byte.x25 :: ([Byte.x50; Byte.x44; Byte.x46] ++ rest)).
    apply (bytes_startswith_app PDF_MAGIC rest).
Qed.

(** An upload is accepted exactly when it has between 1 and [MAX_PDF_FILES]
    files and every one of them is a PDF; an accepted upload carries no
    error message and a rejected one carries one. *)
Theorem pdf_files_valid_iff files :
  (is_valid (validate_pdf_files files) = true ↔
   (1 ≤ len files ≤ MAX_PDF_FILES)%Z ∧ Forall (λ f, is_pdf f = true) files) ∧
  (is_valid (validate_pdf_files files) = true ↔
   error_message (validate_pdf_files files) = None).
Proof.
  unfold validate_pdf_files, len.
  destruct files as [|file_bytes rest].
  { split; (split; [done|]); [|done]. simpl. lia. }
  set (files := file_bytes :: rest).
  destruct (Z.ltb_spec MAX_PDF_FILES (Z.of_nat (length files))) as [Hmany|Hfew].
  { split; (split; [done|]); [|done]. lia. }
  pose proof (invalid_positions_nil_iff files) as Hnone.
  destruct (invalid_positions 0 files []) as [|p ps].
  - split; [|done]. split; [|done]. intros _.
    split; [|by apply Hnone]. subst files. simpl length in *. lia.
  - split; (split; [done|]); [|done]. intros [_ Hall].
    by apply Hnone in Hall.
Qed.

(** When the number of files is the problem, [validate_pdf_files] gives
    the very result [validate_file_count] gives for that number; the count
    check accepts exactly the numbers from 1 to [MAX_PDF_FILES]. *)
Theorem pdf_files_count_rejection files count :
  (is_valid (validate_file_count count) = true ↔ (1 ≤ count ≤ MAX_PDF_FILES)%Z) ∧
  (is_valid (validate_file_count (len files)) = false →
   validate_pdf_files files = validate_file_count (len files)).
Proof.
  split.
  - unfold validate_file_count.
    destruct (Z.ltb_spec count 1); [by split; [|lia]|].
    destruct (Z.ltb_spec MAX_PDF_FILES count); [by split; [|lia]|].
    by split.
  - unfold validate_file_count, validate_pdf_files.
    destruct files as [|file_bytes rest]; [done|].
    set (files := file_bytes :: rest).
    destruct (Z.ltb_spec (len files) 1) as [Hnone|_].
    { unfold len in Hnone. subst files. simpl length in Hnone. lia. }
    by destruct (Z.ltb_spec MAX_PDF_FILES (len files)).
Qed.

(** When the number of files is fine and some file is not a PDF, the error
    message lists the positions of exactly the files that are not PDFs,
    counted from 1 and in increasing order. *)
Theorem pdf_files_invalid_positions files :
  (1 ≤ len files ≤ MAX_PDF_FILES)%Z →
  ¬ Forall (λ f, is_pdf f = true) files →
  ∃ positions,
    validate_pdf_files files =
    rejected ("Invalid file format. Files at positions " +:+
              int_list_repr positions +:+
              " are not valid PDFs. Only PDF format is supported.") ∧
    positions ≠ [] ∧
    StronglySorted Z.lt positions ∧
    ∀ p, p ∈ positions ↔
         ∃ k file_bytes, files !! k = Some file_bytes ∧
                         is_pdf file_bytes = false ∧ p = (Z.of_nat k + 1)%Z.
Proof.
  intros [Hsome Hfew] Hbad. exists (invalid_positions 0 files []).
  assert (invalid_positions 0 files [] ≠ []) as Hpositions
    by (by rewrite invalid_positions_nil_iff).
  split; [|split; [done|split]].
  - unfold validate_pdf_files.
    destruct files as [|file_bytes rest]; [unfold len in Hsome; simpl in Hsome; lia|].
    set (files := file_bytes :: rest) in *.
    destruct (Z.ltb_spec MAX_PDF_FILES (len files)); [lia|].
    by destruct (invalid_positions 0 files []).
  - apply invalid_positions_sorted; constructor.
  - intros p. rewrite invalid_positions_elem. split.
    + intros [Hp|(k & f & Hk & Hf & ->)]; [by apply elem_of_nil in Hp|].
      exists k, f. split_and!; [done|done|lia].
    + intros (k & f & Hk & Hf & ->). right.
      exists k, f. split_and!; [done|done|lia].
Qed.

(** A job description is accepted exactly when it is not empty and what
    is left of it after stripping has between [MIN_JOB_DESCRIPTION_LENGTH]
    and [MAX_JOB_DESCRIPTION_LENGTH] characters; on a non-empty description
    the verdict is the one [validate_job_description_length] gives for the
    stripped length. *)
Theorem job_description_valid_iff `{PyStr} description :
  (is_valid (validate_job_description description) = true ↔
   description ≠ "" ∧
   (MIN_JOB_DESCRIPTION_LENGTH ≤ str_len (strip description)
    ≤ MAX_JOB_DESCRIPTION_LENGTH)%Z) ∧
  (description ≠ "" →
   is_valid (validate_job_description description) =
   is_valid (validate_job_description_length (str_len (strip description)))) ∧
  (is_valid (validate_job_description description) = true ↔
   error_message (validate_job_description description) = None).
Proof.
  unfold validate_job_description, validate_job_description_length.
  destruct description as [|c description].
  { split; [|split]; [|done|done]. split; [done|]. by intros []. }
  set (d := String c description).
  destruct (Z.ltb_spec (str_len (strip d)) MIN_JOB_DESCRIPTION_LENGTH).
  { split; [|split]; [|done|done]. split; [done|lia]. }
  destruct (Z.ltb_spec MAX_JOB_DESCRIPTION_LENGTH (str_len (strip d))).
  { split; [|split]; [|done|done]. split; [done|lia]. }
  split; [|done]. split; [|done]. intros _. split; [done|lia].
Qed.

Lemma blank_false_iff `{PyStr} text :
  blank text = false ↔ text ≠ "" ∧ strip text ≠ "".
Proof.
  unfold blank. destruct text as [|c text]; [by split; [|intros []]|].
  destruct (strip (String c text)); [by split; [|intros []]|]. by split.
Qed.

Lemma valid_description_not_blank `{PyStr} description :
  is_valid (validate_job_description description) = true →
  blank description = false.
Proof.
  unfold validate_job_description, blank.
  destruct description as [|c description]; [done|].
  destruct (strip (String c description)); [|done].
  by destruct (Z.ltb_spec (str_len "") MIN_JOB_DESCRIPTION_LENGTH).
Qed.

(** A job description that is empty or only white space is rejected by
    [validate_job_description], and a run on it, from PDFs or from text,
    ends with "Failed to analyze job description: Empty job description"
    whatever the resumes and whatever the language model would answer. *)
Theorem blank_description_run `{PyStr} now fitz pdf_model text_model job_model
    explanation_model pdf_files resume_texts description on_status_update
    generate_explanations st :
  blank description = true →
  let self := screening_runner fitz pdf_model text_model job_model
                               explanation_model in
  let failure :=
    Returned [] (Some "Failed to analyze job description: Empty job description") in
  is_valid (validate_job_description description) = false ∧
  (process now self pdf_files description on_status_update generate_explanations
           st).1 = failure ∧
  (process_from_text now self resume_texts description on_status_update
                     generate_explanations st).1 = failure.
Proof.
  intros Hblank self failure. split.
  - destruct (is_valid (validate_job_description description)) eqn:Hvalid; [|done].
    apply valid_description_not_blank in Hvalid. congruence.
  - unfold process, process_from_text, run, self. cbn [read_clock].
    cbn [screening_runner new_runner analyzer_analyze_job_description].
    unfold analyze_job_description. rewrite Hblank. by split.
Qed.

(** When the job description is analysed and every resume text is empty or
    only white space, [process_from_text] ends with "No resumes could be
    parsed", and the language model is not asked about any resume: the
    outcome is the same for every model. *)
Theorem blank_texts_run `{PyStr} now fitz pdf_model job_model
    explanation_model resume_texts description on_status_update
    generate_explanations st :
  blank description = false →
  truthy (job_model description).2 = false →
  Forall (λ text, blank text = true) resume_texts →
  ∀ text_model,
    (process_from_text now
       (screening_runner fitz pdf_model text_model job_model explanation_model)
       resume_texts description on_status_update generate_explanations st).1
    = Returned [] (Some "No resumes could be parsed") ∧
    (parse_loop now (λ i, parse_resume_from_text (text_model i)) on_status_update
                (now (st_clock st)) (length resume_texts) 0 resume_texts [] []
                st).1.2
    = imap (λ i _, "Resume " +:+ pretty (i + 1)%nat +:+ ": Empty resume text")
           resume_texts.
Proof.
  intros Hdescription Hjob Hblank text_model.
  assert (∀ on start total st0,
            (parse_loop now (λ i, parse_resume_from_text (text_model i)) on start
                        total 0 resume_texts [] [] st0).1 =
            ([], imap (λ i _, "Resume " +:+ pretty (i + 1)%nat +:+
                              ": Empty resume text") resume_texts)) as Hloop.
  { intros. rewrite parse_loop_all_fail.
    - simpl. f_equal. apply imap_ext. intros i text Hi. simpl.
      rewrite Forall_lookup in Hblank. unfold parse_resume_from_text.
      by rewrite (Hblank i text Hi).
    - intros k text Hk. rewrite Forall_lookup in Hblank.
      unfold parse_resume_from_text. by rewrite (Hblank k text Hk). }
  split; [|by rewrite Hloop].
  unfold process_from_text, run. cbn [read_clock].
  cbn [screening_runner new_runner analyzer_analyze_job_description
       parser_parse_resume_from_text].
  unfold analyze_job_description. rewrite Hdescription.
  destruct (job_model description) as [job job_error]. cbn [snd] in Hjob.
  rewrite Hjob.
  match goal with
  | |- context [parse_loop now ?p ?on ?start ?total 0%nat resume_texts [] [] ?st0] =>
      pose proof (Hloop on start total st0) as Hparsed;
      destruct (parse_loop now p on start total 0%nat resume_texts [] [] st0)
        as [[parsed errors] st2]
  end.
  cbn [fst] in Hparsed. by injection Hparsed as -> _.
Qed.

Local Ltac fails_with_error :=
  right; eexists; (split; [|split; [reflexivity|done]]); vm_compute; discriminate.

(** [extract_text] returns either a text that is not empty and no error,
    or the empty text and an error that is not empty; so [parse_resume]
    either asks the language model about a text that is not empty, or
    returns the extraction error without asking it. *)
Theorem extract_text_contract `{PyStr} fitz pdf_bytes :
  (∃ text, text ≠ "" ∧
           extract_text fitz pdf_bytes = (text, None) ∧
           ∀ pdf_model, parse_resume fitz pdf_model pdf_bytes = pdf_model text) ∨
  (∃ error, error ≠ "" ∧
            extract_text fitz pdf_bytes = ("", Some error) ∧
            ∀ pdf_model, parse_resume fitz pdf_model pdf_bytes = (None, Some error)).
Proof.
  unfold parse_resume, extract_text.
  destruct fitz as [read_pages|]; [|fails_with_error].
  destruct pdf_bytes as [|b pdf_bytes]; [fails_with_error|].
  destruct (read_pages (b :: pdf_bytes)) as [e|[|page pages]];
    [fails_with_error..|].
  match goal with
  | |- context [strip ?joined] => destruct (strip joined) as [|c full_text]
  end; [fails_with_error|].
  left. eexists. split; [|split; [reflexivity|done]]. done.
Qed.

(** An upload and a description that pass validation are never stopped by
    the agents' own guards: the analyzer asks the language model, and no
    file is rejected as an empty PDF. *)
Theorem validated_input_passes_guards `{PyStr} fitz job_model files description :
  is_valid (validate_pdf_files files) = true →
  is_valid (validate_job_description description) = true →
  analyze_job_description job_model description = job_model description ∧
  Forall (λ file_bytes,
            file_bytes ≠ [] ∧
            (extract_text fitz file_bytes).2 ≠ Some "Empty PDF file") files.
Proof.
  intros Hfiles Hdescription. split.
  - unfold analyze_job_description. by rewrite valid_description_not_blank.
  - unfold validate_pdf_files in Hfiles.
    destruct files as [|file_bytes rest]; [done|].
    set (files := file_bytes :: rest) in *.
    destruct (Z.ltb_spec MAX_PDF_FILES (len files)); [done|].
    pose proof (invalid_positions_nil_iff files) as Hnone.
    destruct (invalid_positions 0 files []); [|done].
    eapply Forall_impl; [by apply Hnone|].
    intros f Hpdf. simpl in Hpdf.
    destruct f as [|b f]; [done|]. split; [done|].
    unfold extract_text. destruct fitz as [read_pages|]; [|done].
    destruct (read_pages (b :: f)) as [e|[|page pages]]; [done..|].
    simpl.
    match goal with
    | |- context [strip ?joined] => by destruct (strip joined)
    end.
Qed.

(** ** The model's answer *)

Local Abbreviation LF := (String "010" EmptyString).

Lemma split_lines_nonempty s : split_lines s ≠ [].
Proof.
  destruct s as [|c s]; [done|]. simpl.
  destruct (Ascii.eqb c "010"); [done|]. by destruct (split_lines s).
Qed.

(** Joining the lines of a text gives the text back. *)
Lemma join_split_lines s : join LF (split_lines s) = s.
Proof.
  induction s as [|c s IH]; [done|]. simpl.
  destruct (Ascii.eqb_spec c "010") as [->|_].
  - pose proof (split_lines_nonempty s) as Hne.
    destruct (split_lines s) as [|line lines]; [done|].
    change (String "010" (join LF (line :: lines)) = String "010" s).
    by rewrite IH.
  - pose proof (split_lines_nonempty s) as Hne.
    destruct (split_lines s) as [|line lines]; [done|].
    rewrite <- IH. by destruct lines.
Qed.

Lemma split_lines_single s : single_line s = true → split_lines s = [s].
Proof.
  induction s as [|c s IH]; [done|]. simpl. intros Hsingle.
  apply andb_true_iff in Hsingle as [Hc Hs].
  destruct (Ascii.eqb c "010"); [done|]. by rewrite IH.
Qed.

Lemma split_lines_cons first rest :
  single_line first = true →
  split_lines (first +:+ String "010" rest) = first :: split_lines rest.
Proof.
  induction first as [|c first IH]; intros Hsingle.
  - done.
  - simpl in Hsingle. apply andb_true_iff in Hsingle as [Hc Hfirst].
    change (split_lines (String c (first +:+ String "010" rest)) =
            String c first :: split_lines rest).
    cbn [split_lines]. destruct (Ascii.eqb c "010"); [done|]. by rewrite IH.
Qed.

(** Splitting what was joined from single lines gives the lines back. *)
Lemma split_lines_join lines :
  lines ≠ [] → Forall (λ line, single_line line = true) lines →
  split_lines (join LF lines) = lines.
Proof.
  induction lines as [|first lines IH]; [done|]. intros _ Hsingle.
  apply Forall_cons in Hsingle as [Hfirst Hlines].
  destruct lines as [|second lines]; [by apply split_lines_single|].
  change (join LF (first :: second :: lines))
    with (first +:+ String "010" (join LF (second :: lines))).
  rewrite split_lines_cons by done. by rewrite IH.
Qed.

Lemma inner_middle {A} (first : A) body last_line :
  inner (first :: body ++ [last_line]) = body.
Proof.
  unfold inner. cbn [drop length].
  replace (S (length (body ++ [last_line])) - 2)%nat with (length body)
    by (rewrite length_app; simpl; lia).
  by rewrite drop_0, take_app_length.
Qed.

(** What [clean_response] makes of the model's answer. An answer that does
    not start with a code fence is only stripped. A fenced answer of three
    lines or more loses its first and last line, whatever they hold; a
    fenced answer of one or two lines becomes the empty text. *)
Theorem clean_response_fenced `{PyStr} response_text :
  (String.prefix "```" (strip response_text) = false →
   clean_response response_text = strip response_text) ∧
  (∀ first body last_line,
     strip response_text = join LF (first :: body ++ [last_line]) →
     String.prefix "```" first = true →
     Forall (λ line, single_line line = true) (first :: body ++ [last_line]) →
     clean_response response_text = join LF body) ∧
  (String.prefix "```" (strip response_text) = true →
   single_line (strip response_text) = true →
   clean_response response_text = "").
Proof.
  unfold clean_response. split; [by intros ->|split].
  - intros first body last_line Hanswer Hfence Hsingle.
    assert (String.prefix "```" (strip response_text) = true) as ->.
    { rewrite Hanswer. apply prefix_inv in Hfence as [rest ->].
      destruct body as [|second body].
      - change (join LF (("```" +:+ rest) :: [] ++ [last_line]))
          with ("```" +:+ rest +:+ LF +:+ last_line).
        apply prefix_app.
      - change (join LF (("```" +:+ rest) :: (second :: body) ++ [last_line]))
          with ("```" +:+ rest +:+ LF +:+ join LF ((second :: body) ++ [last_line])).
        apply prefix_app. }
    rewrite Hanswer, split_lines_join by done. by rewrite inner_middle.
  - intros -> Hsingle. by rewrite split_lines_single.
Qed.

(** ** The validation and guard theorems at concrete inputs *)

Lemma pdf_files_count_rejection_witness :
  is_valid (validate_file_count (len (replicate 51 Sample.pdf))) = false ∧
  validate_pdf_files (replicate 51 Sample.pdf) = validate_file_count 51.
Proof.
  split; [reflexivity|].
  apply (proj2 (pdf_files_count_rejection (replicate 51 Sample.pdf) 51)).
  reflexivity.
Defined.

Lemma pdf_files_invalid_positions_witness :
  let files := [Sample.pdf; []; Sample.pdf; [Byte.x25]] in
  (1 ≤ len files ≤ MAX_PDF_FILES)%Z ∧
  ¬ Forall (λ f, is_pdf f = true) files ∧
  ∃ positions,
    validate_pdf_files files =
    rejected ("Invalid file format. Files at positions " +:+
              int_list_repr positions +:+
              " are not valid PDFs. Only PDF format is supported.") ∧
    positions ≠ [] ∧
    StronglySorted Z.lt positions ∧
    ∀ p, p ∈ positions ↔
         ∃ k file_bytes, files !! k = Some file_bytes ∧
                         is_pdf file_bytes = false ∧ p = (Z.of_nat k + 1)%Z.
Proof.
  intros files.
  assert ((1 ≤ len files ≤ MAX_PDF_FILES)%Z) as Hcount by (vm_compute; split; discriminate).
  assert (¬ Forall (λ f, is_pdf f = true) files) as Hbad.
  { rewrite Forall_lookup. intros Hall. by specialize (Hall 1%nat [] eq_refl). }
  split; [exact Hcount|]. split; [exact Hbad|].
  exact (pdf_files_invalid_positions files Hcount Hbad).
Defined.

Lemma blank_description_run_witness :
  blank "   " = true ∧
  (process Sample.ticking
     (screening_runner None (λ _ _, (None, None)) (λ _ _, (None, None))
                       Sample.analyzed Sample.offline)
     [Sample.pdf] "   " true false initial_state).1
  = Returned [] (Some "Failed to analyze job description: Empty job description").
Proof.
  split; [reflexivity|].
  destruct (blank_description_run (H := ascii_str) Sample.ticking None (λ _ _, (None, None))
              (λ _ _, (None, None)) Sample.analyzed Sample.offline
              [Sample.pdf] [] "   " true false initial_state eq_refl)
    as (_ & Hprocess & _).
  exact Hprocess.
Defined.

Lemma blank_texts_run_witness :
  blank "Engineer wanted" = false ∧
  Forall (λ text, blank text = true) [""; "  "] ∧
  (process_from_text Sample.ticking
     (screening_runner None (λ _ _, (None, None)) (λ _ _, (None, None))
                       Sample.analyzed Sample.offline)
     [""; "  "] "Engineer wanted" true false initial_state).1
  = Returned [] (Some "No resumes could be parsed").
Proof.
  assert (Forall (λ text, blank text = true) [""; "  "]) as Hblank
    by (repeat constructor).
  split; [reflexivity|]. split; [exact Hblank|].
  destruct (blank_texts_run (H := ascii_str) Sample.ticking None (λ _ _, (None, None))
              Sample.analyzed Sample.offline [""; "  "] "Engineer wanted"
              true false initial_state eq_refl eq_refl Hblank
              (λ _ _, (None, None)))
    as [Hrun _].
  exact Hrun.
Defined.

Lemma validated_input_passes_guards_witness :
  is_valid (validate_pdf_files [Sample.pdf]) = true ∧
  is_valid (validate_job_description "Engineer wanted") = true ∧
  analyze_job_description Sample.analyzed "Engineer wanted" =
  (Some Sample.python_sql_job, None).
Proof.
  split; [reflexivity|]. split; [reflexivity|].
  destruct (validated_input_passes_guards (H := ascii_str) None Sample.analyzed [Sample.pdf]
              "Engineer wanted" eq_refl eq_refl) as [Hanalyzed _].
  exact Hanalyzed.
Defined.

Lemma clean_response_fenced_witness :
  clean_response ("```json" +:+ LF +:+ "{}" +:+ LF +:+ "```") = "{}".
Proof.
  apply (proj1 (proj2 (clean_response_fenced (H := ascii_str)
                         ("```json" +:+ LF +:+ "{}" +:+ LF +:+ "```")))
           "```json" ["{}"] "```").
  - reflexivity.
  - reflexivity.
  - repeat constructor.
Defined.
